(** * goiardi: the node package ([node/node.go])

    A shallow embedding of the node entity of the goiardi Chef server: the
    constructor [New], the fetch [Get], the validating update
    [UpdateFromJson] and the persistence operation [Save], over both storage
    backends (the MySQL tables and the in-memory data store), together with
    the properties the specification states about them; then [NewFromJson],
    [Delete] and [GetList], and what the code shows of how the operations
    compose.

    Go values are modelled as follows.
    - [interface{}] holding decoded JSON is the inductive [value]; a Go
      [map[string]interface{}] is a [gmap string value], so that two maps
      with the same bindings are equal.
    - A Go function returning [(T, error)] returns a pair [T * option E];
      [None] is Go's [nil] error.
    - [*Node] is a location in a heap of [Node] records; a nil pointer is
      [None].
    - A run-time panic (a failed single-value type assertion) is the
      [Panic] outcome. *)

From Stdlib Require Import Strings.Byte.
From stdpp Require Import gmap strings list fin_maps.

Set Warnings "-register-all".

(** ** Dynamic values *)

(** The contents of an [interface{}]: [VNil] is the nil interface, the
    scalars are what [encoding/json] produces (a JSON number is a float64,
    carried here by its bit pattern and never computed with), [VArray] is
    [[]interface{}], [VMap] is [map[string]interface{}], and [VStrings] is a
    [[]string] such as a validated run list. *)
Inductive value :=
  | VNil
  | VString (s : string)
  | VFloat64 (bits : N)
  | VBool (b : bool)
  | VArray (l : list value)
  | VMap (m : gmap string value)
  | VStrings (l : list string).

Fixpoint value_size (v : value) : nat :=
  match v with
  | VArray l => S (foldr (λ x acc, value_size x + acc) 0 l)
  | VMap m => S (map_fold (λ _ x acc, value_size x + acc) 0 m)
  | _ => 1
  end.

(** Go outcomes: a normal return or a panic. *)
Inductive outcome (A : Type) :=
  | Ret (a : A)
  | Panic (msg : string).
Arguments Ret {A} a.
Arguments Panic {A} msg.

(** Single-value type assertions [x.(T)]: they panic when the dynamic type
    of [x] is not [T], in particular on the nil interface. *)
Definition assert_string (v : value) : outcome string :=
  match v with
  | VString s => Ret s
  | _ => Panic "interface conversion: interface {} is not string"
  end.

Definition assert_strings (v : value) : outcome (list string) :=
  match v with
  | VStrings l => Ret l
  | _ => Panic "interface conversion: interface {} is not []string"
  end.

Definition assert_map (v : value) : outcome (gmap string value) :=
  match v with
  | VMap m => Ret m
  | _ => Panic "interface conversion: interface {} is not map[string]interface {}"
  end.

#[global] Instance outcome_ret : MRet outcome := @Ret.
#[global] Instance outcome_bind : MBind outcome := λ A B k o,
  match o with
  | Ret a => k a
  | Panic msg => Panic msg
  end.

(** Reading [m[k]] from a Go map: a missing key reads as the zero value,
    the nil interface. *)
Definition map_index (m : gmap string value) (k : string) : value :=
  default VNil (m !! k).

(** ** Errors *)

(** [util.Gerror]: a message and an HTTP status.  [util.Errorf] is outside
    this file; the status it initialises is not visible here, so the status
    is [None] until [SetStatus] stores one. *)
Record Gerror := mkGerror { gmsg : string; gstatus : option Z }.

Definition Errorf (msg : string) : Gerror := mkGerror msg None.
Definition SetStatus (g : Gerror) (code : Z) : Gerror := mkGerror (gmsg g) (Some code).
Definition StatusConflict : Z := 409.
Definition StatusInternalServerError : Z := 500.

(** Go's [error] values that occur in this package: the sentinel
    [sql.ErrNoRows], errors built by [fmt.Errorf], a [util.Gerror] returned
    as an [error], and the error of a blob that does not decode. *)
Inductive error :=
  | ErrNoRows
  | ErrorString (msg : string)
  | ErrGerror (g : Gerror)
  | ErrCodec (msg : string).

Definition error_text (e : error) : string :=
  match e with
  | ErrNoRows => "sql: no rows in result set"
  | ErrorString msg => msg
  | ErrGerror g => gmsg g
  | ErrCodec msg => msg
  end.

(** ** The attribute codec *)

Definition blob := list byte.

(** Modelled from the spec: the byte format of the blobs is decided by
    [data_store], outside this file.  The specification fixes what the
    format must carry (string-keyed mappings, ordered sequences and scalar
    leaves, nested to any depth) and that the top-level shape is not
    written; the layout below is one such format. *)
Module Codec.

(** Natural numbers (lengths, counts, bit patterns) are written one binary
    digit per byte, least significant first; the most significant digit is
    the terminator, so the code is self-delimiting. *)
Fixpoint encode_pos (p : positive) : blob :=
  match p with
  | xH => [x01]
  | xO q => x02 :: encode_pos q
  | xI q => x03 :: encode_pos q
  end.

Definition encode_N (n : N) : blob :=
  match n with
  | N0 => [x00]
  | Npos p => encode_pos p
  end.

Fixpoint decode_pos (bs : blob) : option (positive * blob) :=
  match bs with
  | x01 :: r => Some (xH, r)
  | x02 :: r => '(p, r') ← decode_pos r; Some (xO p, r')
  | x03 :: r => '(p, r') ← decode_pos r; Some (xI p, r')
  | _ => None
  end.

Definition decode_N (bs : blob) : option (N * blob) :=
  match bs with
  | x00 :: r => Some (N0, r)
  | _ => '(p, r) ← decode_pos bs; Some (Npos p, r)
  end.

Definition encode_count (n : nat) : blob := encode_N (N.of_nat n).

Definition decode_count (bs : blob) : option (nat * blob) :=
  '(n, r) ← decode_N bs; Some (N.to_nat n, r).

(** A string is its length followed by its bytes. *)
Definition encode_string (s : string) : blob :=
  let bytes := String.list_byte_of_string s in
  encode_count (length bytes) ++ bytes.

Definition decode_string (bs : blob) : option (string * blob) :=
  '(k, r) ← decode_count bs;
  if decide (k ≤ length r)
  then Some (String.string_of_list_byte (take k r), drop k r)
  else None.

(** [decode_seq item n bs] reads [n] items one after the other. *)
Fixpoint decode_seq {A} (item : blob → option (A * blob)) (n : nat) (bs : blob)
    : option (list A * blob) :=
  match n with
  | 0 => Some ([], bs)
  | S n' =>
      '(x, r) ← item bs;
      '(xs, r') ← decode_seq item n' r;
      Some (x :: xs, r')
  end.

(** Inside a tree every value carries a one-byte tag naming its shape. *)
Definition tag_of (v : value) : byte :=
  match v with
  | VNil => x00
  | VString _ => x01
  | VFloat64 _ => x02
  | VBool _ => x03
  | VArray _ => x04
  | VMap _ => x05
  | VStrings _ => x06
  end.

(** The body of a value, without its own tag. *)
Fixpoint encode_body (v : value) : blob :=
  match v with
  | VNil => []
  | VString s => encode_string s
  | VFloat64 n => encode_N n
  | VBool b => [if b then x01 else x00]
  | VArray l =>
      encode_count (length l)
      ++ foldr (λ x acc, (tag_of x :: encode_body x) ++ acc) [] l
  | VMap m =>
      encode_count (size m)
      ++ map_fold (λ k x acc, encode_string k ++ (tag_of x :: encode_body x) ++ acc) [] m
  | VStrings l =>
      encode_count (length l) ++ foldr (λ s acc, encode_string s ++ acc) [] l
  end.

Definition encode_value (v : value) : blob := tag_of v :: encode_body v.

Definition encode_entry (kv : string * value) : blob :=
  encode_string kv.1 ++ encode_value kv.2.

(** [decode_body fuel tag bs] reads the body of a value of shape [tag].
    Every nested value consumes its tag byte, so the length of the input
    is enough fuel. *)
Fixpoint decode_body (fuel : nat) (tag : byte) (bs : blob) : option (value * blob) :=
  match fuel with
  | 0 => None
  | S fuel' =>
      let decode_value (bs : blob) : option (value * blob) :=
        match bs with
        | [] => None
        | t :: r => decode_body fuel' t r
        end in
      let decode_entry (bs : blob) : option ((string * value) * blob) :=
        '(k, r) ← decode_string bs;
        '(x, r') ← decode_value r;
        Some ((k, x), r') in
      match tag with
      | x00 => Some (VNil, bs)
      | x01 => '(s, r) ← decode_string bs; Some (VString s, r)
      | x02 => '(n, r) ← decode_N bs; Some (VFloat64 n, r)
      | x03 =>
          match bs with
          | x00 :: r => Some (VBool false, r)
          | x01 :: r => Some (VBool true, r)
          | _ => None
          end
      | x04 =>
          '(n, r) ← decode_count bs;
          '(l, r') ← decode_seq decode_value n r;
          Some (VArray l, r')
      | x05 =>
          '(n, r) ← decode_count bs;
          '(l, r') ← decode_seq decode_entry n r;
          Some (VMap (list_to_map l), r')
      | x06 =>
          '(n, r) ← decode_count bs;
          '(l, r') ← decode_seq decode_string n r;
          Some (VStrings l, r')
      | _ => None
      end
  end.

End Codec.

(** Modelled from the spec: [data_store.EncodeBlob] and
    [data_store.DecodeBlob] are outside this file.  The specification asks
    for [encode(tree) -> bytes] and [decode(bytes, shape_hint) -> tree]: the
    encoded form is shape-erased and the hint declares the shape to
    rebuild, malformed bytes are a codec error.  [EncodeBlob] therefore
    writes the body of the value without its tag, and [DecodeBlob] reads
    the body at the shape of its hint and refuses trailing bytes. *)
Definition EncodeBlob (v : value) : blob * option error :=
  (Codec.encode_body v, None).

Definition DecodeBlob (data : blob) (hint : value) : value * option error :=
  match Codec.decode_body (S (length data)) (Codec.tag_of hint) data with
  | Some (v, []) => (v, None)
  | _ => (VNil, Some (ErrCodec "blob does not decode"))
  end.

(** ** The util package: validators *)

(** Modelled from the spec: [util.ValidateAsString] is outside this file.
    It accepts a string and refuses everything else, the nil interface of
    a missing key included. *)
Definition ValidateAsString (v : value) : string * option Gerror :=
  match v with
  | VString s => (s, None)
  | _ => ("", Some (Errorf "Field 'name' missing"))
  end.

(** Modelled from the spec: [util.ValidateAsFieldString] is outside this
    file.  A missing or null field is reported by the error whose text
    [UpdateFromJson] compares against, ["Field 'name' nil"]; a string is
    accepted as it is; any other value is refused with another error. *)
Definition ValidateAsFieldString (v : value) : string * option Gerror :=
  match v with
  | VString s => (s, None)
  | VNil => ("", Some (Errorf "Field 'name' nil"))
  | _ => ("", Some (Errorf "Field 'name' missing"))
  end.

(** The validators owned by the external validation collaborator: the
    run-list validator, the attribute-shape validator keyed by the tree
    name, and the two name-format rules.  Their rules are not part of this
    package, so every result below holds for any implementation; like the
    Go functions, the first two return a value next to the error. *)
Class Validators := {
  ValidateRunList : value → list string * option Gerror;
  ValidateAttributes : string → value → gmap string value * option Gerror;
  ValidateEnvName : string → bool;
  ValidateDBagName : string → bool;
}.

(** ** The node entity *)

Record Node := mkNode {
  Name : string;
  ChefEnvironment : string;
  RunList : list string;
  JsonClass : string;
  ChefType : string;
  Automatic : gmap string value;
  Normal : gmap string value;
  Default : gmap string value;
  Override : gmap string value;
}.

(** [new(Node)]: every field at its zero value. *)
Definition zero_Node : Node := mkNode "" "" [] "" "" ∅ ∅ ∅ ∅.

Definition set_Name (n : Node) (x : string) : Node :=
  mkNode x (ChefEnvironment n) (RunList n) (JsonClass n) (ChefType n)
    (Automatic n) (Normal n) (Default n) (Override n).
Definition set_ChefEnvironment (n : Node) (x : string) : Node :=
  mkNode (Name n) x (RunList n) (JsonClass n) (ChefType n)
    (Automatic n) (Normal n) (Default n) (Override n).
Definition set_RunList (n : Node) (x : list string) : Node :=
  mkNode (Name n) (ChefEnvironment n) x (JsonClass n) (ChefType n)
    (Automatic n) (Normal n) (Default n) (Override n).
Definition set_JsonClass (n : Node) (x : string) : Node :=
  mkNode (Name n) (ChefEnvironment n) (RunList n) x (ChefType n)
    (Automatic n) (Normal n) (Default n) (Override n).
Definition set_ChefType (n : Node) (x : string) : Node :=
  mkNode (Name n) (ChefEnvironment n) (RunList n) (JsonClass n) x
    (Automatic n) (Normal n) (Default n) (Override n).
Definition set_Automatic (n : Node) (x : gmap string value) : Node :=
  mkNode (Name n) (ChefEnvironment n) (RunList n) (JsonClass n) (ChefType n)
    x (Normal n) (Default n) (Override n).
Definition set_Normal (n : Node) (x : gmap string value) : Node :=
  mkNode (Name n) (ChefEnvironment n) (RunList n) (JsonClass n) (ChefType n)
    (Automatic n) x (Default n) (Override n).
Definition set_Default (n : Node) (x : gmap string value) : Node :=
  mkNode (Name n) (ChefEnvironment n) (RunList n) (JsonClass n) (ChefType n)
    (Automatic n) (Normal n) x (Override n).
Definition set_Override (n : Node) (x : gmap string value) : Node :=
  mkNode (Name n) (ChefEnvironment n) (RunList n) (JsonClass n) (ChefType n)
    (Automatic n) (Normal n) (Default n) x.

(** The indexing interface of a node. *)
Definition DocId (n : Node) : string := Name n.
Definition Index (n : Node) : string := "node".

(** Modelled from the spec: [data_store.ChkNilArray] is outside this file;
    it replaces nil slices and maps of the node by empty ones.  A [list]
    and a [gmap] have one empty value, so here it changes nothing. *)
Definition ChkNilArray (n : Node) : Node := n.

(** ** The relational store *)

(** A row of the [nodes] table and a row of the [environments] table.  The
    [created_at] and [updated_at] columns hold the server's clock and are
    left out.  The keys are the integer keys of the tables; Go scans them
    into [int32], and the keys of the model are taken to fit. *)
Record node_row := mkNodeRow {
  row_id : Z;
  row_name : string;
  row_environment_id : Z;
  row_run_list : blob;
  row_automatic_attr : blob;
  row_normal_attr : blob;
  row_default_attr : blob;
  row_override_attr : blob;
}.

Record environment_row := mkEnvRow { env_id : Z; env_name : string }.

Record database := mkDatabase {
  nodes : list node_row;
  environments : list environment_row;
}.

Definition is_ErrNoRows (e : error) : bool :=
  match e with
  | ErrNoRows => true
  | _ => false
  end.

Module Sql.

(** Modelled from the spec: the [database/sql] handle [data_store.Dbh] and
    the MySQL server behind it are outside this file.  The tables are
    lists of rows in the order the server returns them, [QueryRow] takes
    the first row of a result, and the connection itself does not fail:
    the errors of this layer come from the data (no row matches). *)

Definition Prepare (db : database) (query : string) : option error := None.

(** [Begin] opens a transaction: a working copy of the tables, installed
    by [Commit] and dropped by [Rollback]. *)
Definition Begin (db : database) : database * option error := (db, None).

(** [SELECT id FROM <kind> WHERE name = ?]. *)
Definition select_id (db : database) (kind name : string) : option Z :=
  if String.eqb kind "nodes" then
    row_id <$> find (λ r, String.eqb (row_name r) name) (nodes db)
  else if String.eqb kind "environments" then
    env_id <$> find (λ e, String.eqb (env_name e) name) (environments db)
  else None.

(** [select n.name, e.name as chef_environment, n.run_list, ... from nodes n
    join environments as e on n.environment_id = e.id where n.name = ?],
    first row. *)
Fixpoint select_node (ns : list node_row) (es : list environment_row)
    (node_name : string) : option (node_row * environment_row) :=
  match ns with
  | [] => None
  | r :: ns' =>
      if String.eqb (row_name r) node_name then
        match find (λ e, Z.eqb (row_environment_id r) (env_id e)) es with
        | Some e => Some (r, e)
        | None => select_node ns' es node_name
        end
      else select_node ns' es node_name
  end.

Definition QueryRow (db : database) (node_name : string)
    : option (node_row * environment_row) :=
  select_node (nodes db) (environments db) node_name.

(** [UPDATE nodes n, environments e SET n.environment_id = e.id,
    n.run_list = ?, ... WHERE n.id = ? and e.name = ?].  A statement that
    matches no row changes nothing and is not an error. *)
Definition exec_update (tx : database) (rlb aab nab dab oab : blob)
    (node_id : Z) (chef_environment : string) : database * option error :=
  match find (λ e, String.eqb (env_name e) chef_environment) (environments tx) with
  | None => (tx, None)
  | Some e =>
      let upd (r : node_row) : node_row :=
        if Z.eqb (row_id r) node_id
        then mkNodeRow (row_id r) (row_name r) (env_id e) rlb aab nab dab oab
        else r in
      (mkDatabase (upd <$> nodes tx) (environments tx), None)
  end.

(** The [AUTO_INCREMENT] key of a new row. *)
Definition next_id (ns : list node_row) : Z :=
  1 + foldr (λ r acc, Z.max (row_id r) acc) 0%Z ns.

(** [INSERT INTO nodes (name, environment_id, run_list, ...) VALUES (...)]. *)
Definition exec_insert (tx : database) (name : string) (environment_id : Z)
    (rlb aab nab dab oab : blob) : database * option error :=
  let r := mkNodeRow (next_id (nodes tx)) name environment_id rlb aab nab dab oab in
  (mkDatabase (nodes tx ++ [r]) (environments tx), None).

(** [DELETE FROM nodes WHERE name = ?]: every row of that name goes; a
    statement that matches no row is not an error. *)
Definition exec_delete (tx : database) (name : string) : database * option error :=
  (mkDatabase (filter (λ r, row_name r ≠ name) (nodes tx)) (environments tx), None).

(** [tx.Rollback()] drops the working copy. *)
Definition Rollback (tx : database) : option error := None.

(** [SELECT name FROM nodes]: the rows of the result, in table order. *)
Definition Query_names (db : database) : list string * option error :=
  (row_name <$> nodes db, None).

End Sql.

(** Modelled from the spec: [data_store.CheckForOne] is outside this file;
    it is the existence probe of the specification, a lookup of the row
    identifier by name in the given table, with [sql.ErrNoRows] when no
    row has the name. *)
Definition CheckForOne (db : database) (kind name : string) : Z * option error :=
  match Sql.select_id db kind name with
  | Some id => (id, None)
  | None => (0%Z, Some ErrNoRows)
  end.

(** ** The process state *)

(** A [*Node] is a location of the heap. *)
Definition loc := positive.

(** The state the package reads and writes: the configuration flag, the
    database behind [data_store.Dbh], the in-memory data store (which
    holds the pointers it is given, not copies), the heap of node objects
    and the documents handed to the indexer, oldest first. *)
Record World := mkWorld {
  UseMySQL : bool;
  Dbh : database;
  dsc : gmap (string * string) loc;
  heap : gmap loc Node;
  indexed : list (string * string);
}.

Definition set_Dbh (w : World) (db : database) : World :=
  mkWorld (UseMySQL w) db (dsc w) (heap w) (indexed w).
Definition set_dsc (w : World) (d : gmap (string * string) loc) : World :=
  mkWorld (UseMySQL w) (Dbh w) d (heap w) (indexed w).
Definition set_heap (w : World) (h : gmap loc Node) : World :=
  mkWorld (UseMySQL w) (Dbh w) (dsc w) h (indexed w).
Definition set_indexed (w : World) (l : list (string * string)) : World :=
  mkWorld (UseMySQL w) (Dbh w) (dsc w) (heap w) l.

(** [&Node{...}] and [new(Node)]: a fresh location holding the object. *)
Definition alloc (w : World) (n : Node) : loc * World :=
  let p := fresh (dom (heap w)) in
  (p, set_heap w (<[p := n]> (heap w))).

(** Reading a field through a pointer panics when the pointer is nil or
    dangling. *)
Definition deref (w : World) (p : loc) : outcome Node :=
  match heap w !! p with
  | Some n => Ret n
  | None => Panic "invalid memory address or nil pointer dereference"
  end.

(** Modelled from the spec: the in-memory [data_store.DataStore] is
    outside this file.  It is a process-wide keyed store; its operations
    are direct map operations keyed by (kind, name), and objects are
    stored by reference.  [Get] returns the stored [interface{}] (nil when
    the key is absent) and whether the key was found. *)
Definition ds_Get (d : gmap (string * string) loc) (key_type key : string)
    : option loc * bool :=
  (d !! (key_type, key), bool_decide (is_Some (d !! (key_type, key)))).

Definition ds_Set (d : gmap (string * string) loc) (key_type key : string)
    (obj : loc) : gmap (string * string) loc :=
  <[(key_type, key) := obj]> d.

Definition ds_Delete (d : gmap (string * string) loc) (key_type key : string)
    : gmap (string * string) loc :=
  delete (key_type, key) d.

(** The names stored under a kind.  The store is a map, so the order of
    the list carries no meaning. *)
Definition ds_GetList (d : gmap (string * string) loc) (key_type : string)
    : list string :=
  (λ kv : string * string * loc, kv.1.2)
    <$> filter (λ kv : string * string * loc, kv.1.1 = key_type) (map_to_list d).

(** The type assertion of [Get] to a node pointer, on the [interface{}] the data store returned. *)
Definition assert_Node (v : option loc) : outcome loc :=
  match v with
  | Some p => Ret p
  | None => Panic "interface conversion: interface is nil, not *node.Node"
  end.

(** Modelled from the spec: [indexer.IndexObj] is outside this file; the
    index is keyed by entity kind and name, which the object provides
    through [Index] and [DocId]. *)
Definition IndexObj (w : World) (n : Node) : World :=
  set_indexed w (indexed w ++ [(Index n, DocId n)]).

(** Modelled from the spec: [indexer.DeleteItemFromCollection] is outside
    this file; it removes the entry of that kind and name from the index. *)
Definition DeleteItemFromCollection (w : World) (kind name : string) : World :=
  set_indexed w (filter (λ doc, doc ≠ (kind, name)) (indexed w)).

(** ** The operations of the package *)

(** The fixed values of the two descriptive fields:
    [json_node["json_class"].(string) != "Chef::Node"] and
    [json_node["chef_type"].(string) != "node"] negate these tests. *)
Definition is_json_class (s : string) : bool := String.eqb s "Chef::Node".
Definition is_chef_type (s : string) : bool := String.eqb s "node".

Section node.
Context `{!Validators}.

(** [New]: the uniqueness check, the name rule, then the defaulted
    skeleton. *)
Definition New (w : World) (name : string) : World * (option loc * option Gerror) :=
  let existing : option Gerror :=
    if UseMySQL w then
      let '(_, err) := CheckForOne (Dbh w) "nodes" name in
      match err with
      | None =>
          let gerr := Errorf ("Node " +:+ name +:+ " already exists") in
          Some (SetStatus gerr StatusConflict)
      | Some e =>
          if negb (is_ErrNoRows e) then
            let gerr := Errorf (error_text e) in
            Some (SetStatus gerr StatusInternalServerError)
          else None
      end
    else
      let '(_, found) := ds_Get (dsc w) "node" name in
      if found then
        let err := Errorf ("Node " +:+ name +:+ " already exists") in
        Some (SetStatus err StatusConflict)
      else None in
  match existing with
  | Some gerr => (w, (None, Some gerr))
  | None =>
      if negb (ValidateDBagName name) then
        (w, (None, Some (Errorf "Field 'name' invalid")))
      else
        let node := mkNode name "_default" [] "Chef::Node" "node" ∅ ∅ ∅ ∅ in
        let '(p, w') := alloc w node in
        (w', (Some p, None))
  end.

(** [fillNodeFromSQL]: scan the row into the node, then decode the five
    blob columns, each at the shape of the field it fills.  The node is
    written as the function proceeds, also when a later step fails. *)
Definition fillNodeFromSQL (useMySQL : bool) (n : Node)
    (row : option (node_row * environment_row)) : outcome (Node * option error) :=
  if useMySQL then
    match row with
    | None => Ret (n, Some ErrNoRows)
    | Some (r, e) =>
        let n := set_ChefEnvironment (set_Name n (row_name r)) (env_name e) in
        let n := set_ChefType n "node" in
        let n := set_JsonClass n "Chef::Node" in
        let '(q, err) := DecodeBlob (row_run_list r) (VStrings (RunList n)) in
        if err is Some e then Ret (n, Some e) else
        rl ← assert_strings q;
        let n := set_RunList n rl in
        let '(q, err) := DecodeBlob (row_automatic_attr r) (VMap (Automatic n)) in
        if err is Some e then Ret (n, Some e) else
        aa ← assert_map q;
        let n := set_Automatic n aa in
        let '(q, err) := DecodeBlob (row_normal_attr r) (VMap (Normal n)) in
        if err is Some e then Ret (n, Some e) else
        na ← assert_map q;
        let n := set_Normal n na in
        let '(q, err) := DecodeBlob (row_default_attr r) (VMap (Default n)) in
        if err is Some e then Ret (n, Some e) else
        da ← assert_map q;
        let n := set_Default n da in
        let '(q, err) := DecodeBlob (row_override_attr r) (VMap (Override n)) in
        if err is Some e then Ret (n, Some e) else
        oa ← assert_map q;
        let n := set_Override n oa in
        Ret (ChkNilArray n, None)
    end
  else
    Ret (n, Some (ErrorString
      "no database configured, operating in in-memory mode -- fillNodeFromSQL cannot be run")).

Definition select_node_query : string :=
  "select n.name, e.name as chef_environment, n.run_list, n.automatic_attr, n.normal_attr, n.default_attr, n.override_attr from nodes n join environments as e on n.environment_id = e.id where n.name = ?".

(** [Get]: in the relational backend a fresh node filled from the row of
    the joined query; in the in-memory backend the stored pointer itself.
    The type assertion on the stored value comes before the test of
    [found]. *)
Definition Get (w : World) (node_name : string)
    : outcome (World * (option loc * option error)) :=
  let not_found (w : World) :=
    Ret (w, (None, Some (ErrorString ("node '" +:+ node_name +:+ "' not found")))) in
  if UseMySQL w then
    let '(node, w) := alloc w zero_Node in
    match Sql.Prepare (Dbh w) select_node_query with
    | Some err => Ret (w, (None, Some err))
    | None =>
        let row := Sql.QueryRow (Dbh w) node_name in
        n ← deref w node;
        '(n, err) ← fillNodeFromSQL (UseMySQL w) n row;
        let w := set_heap w (<[node := n]> (heap w)) in
        match err with
        | Some e =>
            if is_ErrNoRows e then not_found w
            else Ret (w, (None, Some e))
        | None => Ret (w, (Some node, None))
        end
    end
  else
    let '(n, found) := ds_Get (dsc w) "node" node_name in
    node ← assert_Node n;
    if negb found then not_found w
    else Ret (w, (Some node, None)).

(** The top-level keys [UpdateFromJson] accepts. *)
Definition valid_elements : list string :=
  ["name"; "json_class"; "chef_type"; "chef_environment"; "run_list";
   "override"; "normal"; "default"; "automatic"].

(** The inner loop: is [k] one of [elems]? *)
Fixpoint is_valid_element (k : string) (elems : list string) : bool :=
  match elems with
  | [] => false
  | i :: rest => if String.eqb k i then true else is_valid_element k rest
  end.

(** The loop labelled [ValidElem]: the keys of the input, in the order in
    which [range] yields them, up to the first that is not accepted. *)
Fixpoint first_invalid_key (keys : list string) : option string :=
  match keys with
  | [] => None
  | k :: rest =>
      if is_valid_element k valid_elements then first_invalid_key rest
      else Some k
  end.

(** Go does not fix the order in which [range] visits a map.  The order is
    an input of the model: any list that holds every key once. *)
Definition range_order (json_node : gmap string value) (keys : list string) : Prop :=
  NoDup keys ∧ list_to_set keys = dom json_node.

Definition attrs : list string := ["normal"; "automatic"; "default"; "override"].

(** A validation step returns the input mapping as it has left it and the
    error it found, if any. *)
Definition checked : Type := gmap string value * option Gerror.

Definition validate_run_list (json_node : gmap string value) : checked :=
  let '(rl, verr) := ValidateRunList (map_index json_node "run_list") in
  (<["run_list" := VStrings rl]> json_node, verr).

Fixpoint validate_attrs (names : list string) (json_node : gmap string value) : checked :=
  match names with
  | [] => (json_node, None)
  | a :: rest =>
      let '(m, verr) := ValidateAttributes a (map_index json_node a) in
      let json_node := <[a := VMap m]> json_node in
      match verr with
      | Some e => (json_node, Some e)
      | None => validate_attrs rest json_node
      end
  end.

(** One of the three tag-like fields: [current] is the value of the
    existing node, [accepts] the rule for a value that is present. *)
Definition validate_tag (field : string) (current : string) (accepts : string → bool)
    (json_node : gmap string value) : outcome checked :=
  let '(s, verr) := ValidateAsFieldString (map_index json_node field) in
  let json_node := <[field := VString s]> json_node in
  match verr with
  | Some e =>
      if String.eqb (gmsg e) "Field 'name' nil"
      then Ret (<[field := VString current]> json_node, None)
      else Ret (json_node, Some e)
  | None =>
      s ← assert_string (map_index json_node field);
      if negb (accepts s)
      then Ret (json_node, Some (Errorf ("Field '" +:+ field +:+ "' invalid")))
      else Ret (json_node, None)
  end.

(** Run the next step unless the previous one failed. *)
Definition and_then (r : outcome checked) (k : gmap string value → outcome checked)
    : outcome checked :=
  '(json_node, verr) ← r;
  match verr with
  | Some e => Ret (json_node, Some e)
  | None => k json_node
  end.

(** The validations of [UpdateFromJson] that follow the key check. *)
Definition validate_fields (n : Node) (json_node : gmap string value) : outcome checked :=
  and_then (and_then (and_then (and_then
    (Ret (validate_run_list json_node))
    (λ j, Ret (validate_attrs attrs j)))
    (validate_tag "chef_environment" (ChefEnvironment n) ValidateEnvName))
    (validate_tag "json_class" (JsonClass n) is_json_class))
    (validate_tag "chef_type" (ChefType n) is_chef_type).

(** The assignments at the end of [UpdateFromJson]. *)
Definition assign_fields (n : Node) (json_node : gmap string value) : outcome Node :=
  s ← assert_string (map_index json_node "chef_environment");
  let n := set_ChefEnvironment n s in
  s ← assert_string (map_index json_node "chef_type");
  let n := set_ChefType n s in
  s ← assert_string (map_index json_node "json_class");
  let n := set_JsonClass n s in
  l ← assert_strings (map_index json_node "run_list");
  let n := set_RunList n l in
  m ← assert_map (map_index json_node "normal");
  let n := set_Normal n m in
  m ← assert_map (map_index json_node "automatic");
  let n := set_Automatic n m in
  m ← assert_map (map_index json_node "default");
  let n := set_Default n m in
  m ← assert_map (map_index json_node "override");
  let n := set_Override n m in
  Ret n.

(** [UpdateFromJson] on the fields of the receiver.  [keys] is the order
    in which the key loop visits the input; the result is the node and the
    input mapping as the call leaves them, and the error returned. *)
Definition UpdateFromJson (keys : list string) (n : Node)
    (json_node : gmap string value)
    : outcome (Node * gmap string value * option Gerror) :=
  let '(node_name, nerr) := ValidateAsString (map_index json_node "name") in
  if nerr is Some e then Ret (n, json_node, Some e) else
  if negb (String.eqb (Name n) node_name) then
    let err := Errorf ("Node name " +:+ Name n +:+ " and " +:+ node_name
                       +:+ " from JSON do not match.") in
    Ret (n, json_node, Some err)
  else
  match first_invalid_key keys with
  | Some k =>
      let err := Errorf ("Invalid key " +:+ k +:+ " in request body") in
      Ret (n, json_node, Some err)
  | None =>
      '(json_node, verr) ← validate_fields n json_node;
      match verr with
      | Some e => Ret (n, json_node, Some e)
      | None =>
          n ← assign_fields n json_node;
          Ret (n, json_node, None)
      end
  end.

(** [UpdateFromJson] as a method of a [*Node]: it reads the receiver
    through the pointer and writes it back. *)
Definition Node_UpdateFromJson (w : World) (p : loc) (keys : list string)
    (json_node : gmap string value)
    : outcome (World * gmap string value * option Gerror) :=
  n ← deref w p;
  '(n', json_node, err) ← UpdateFromJson keys n json_node;
  Ret (set_heap w (<[p := n']> (heap w)), json_node, err).

(** [Save]. *)
Definition Save (w : World) (p : loc) : outcome (World * option error) :=
  n ← deref w p;
  let stored : World * option error :=
    if UseMySQL w then
      let '(rlb, rlerr) := EncodeBlob (VStrings (RunList n)) in
      if rlerr is Some e then (w, Some e) else
      let '(aab, aaerr) := EncodeBlob (VMap (Automatic n)) in
      if aaerr is Some e then (w, Some e) else
      let '(nab, naerr) := EncodeBlob (VMap (Normal n)) in
      if naerr is Some e then (w, Some e) else
      let '(dab, daerr) := EncodeBlob (VMap (Default n)) in
      if daerr is Some e then (w, Some e) else
      let '(oab, oaerr) := EncodeBlob (VMap (Override n)) in
      if oaerr is Some e then (w, Some e) else
      let '(tx, err) := Sql.Begin (Dbh w) in
      if err is Some e then (w, Some e) else
      let '(node_id, err) := CheckForOne tx "nodes" (Name n) in
      match err with
      | None =>
          let '(tx, err) :=
            Sql.exec_update tx rlb aab nab dab oab node_id (ChefEnvironment n) in
          if err is Some e then (w, Some e) (* tx.Rollback() *)
          else (set_Dbh w tx, None) (* tx.Commit() *)
      | Some e =>
          if negb (is_ErrNoRows e) then (w, Some e) (* tx.Rollback() *)
          else
            let '(environment_id, err) :=
              CheckForOne tx "environments" (ChefEnvironment n) in
            if err is Some e then (w, Some e) (* tx.Rollback() *)
            else
              let '(tx, err) :=
                Sql.exec_insert tx (Name n) environment_id rlb aab nab dab oab in
              if err is Some e then (w, Some e) (* tx.Rollback() *)
              else (set_Dbh w tx, None) (* tx.Commit() *)
      end
    else
      (set_dsc w (ds_Set (dsc w) "node" (Name n) p), None) in
  match stored with
  | (w, Some e) => Ret (w, Some e)
  | (w, None) => Ret (IndexObj w n, None)
  end.

End node.

(** ** The remaining operations *)

Section node_more.
Context `{!Validators}.

(** [NewFromJson]: the name of the upload, [New], then [UpdateFromJson] on
    the new node.  The result carries the input mapping as the call leaves
    it. *)
Definition NewFromJson (w : World) (keys : list string)
    (json_node : gmap string value)
    : outcome (World * gmap string value * (option loc * option Gerror)) :=
  let '(node_name, nerr) := ValidateAsString (map_index json_node "name") in
  if nerr is Some e then Ret (w, json_node, (None, Some e)) else
  let '(w, (node, err)) := New w node_name in
  if err is Some e then Ret (w, json_node, (None, Some e)) else
  match node with
  | None => Panic "invalid memory address or nil pointer dereference"
  | Some p =>
      '(w, json_node, err) ← Node_UpdateFromJson w p keys json_node;
      if err is Some e then Ret (w, json_node, (None, Some e))
      else Ret (w, json_node, (Some p, None))
  end.

(** [Delete]: the row (or the key) of the node's name, then the entry of
    the index. *)
Definition Delete (w : World) (p : loc) : outcome (World * option error) :=
  n ← deref w p;
  let removed : World * option error :=
    if UseMySQL w then
      let '(tx, err) := Sql.Begin (Dbh w) in
      if err is Some e then (w, Some e) else
      let '(tx, err) := Sql.exec_delete tx (Name n) in
      match err with
      | Some e =>
          let terr := Sql.Rollback tx in
          let e :=
            match terr with
            | Some t =>
                ErrorString ("deleting node " +:+ Name n +:+ " had an error '"
                  +:+ error_text e
                  +:+ "', and then rolling back the transaction gave another error '"
                  +:+ error_text t +:+ "'")
            | None => e
            end in
          (w, Some e)
      | None => (set_Dbh w tx, None) (* tx.Commit() *)
      end
    else
      (set_dsc w (ds_Delete (dsc w) "node" (Name n)), None) in
  match removed with
  | (w, Some e) => Ret (w, Some e)
  | (w, None) => Ret (DeleteItemFromCollection w "node" (Name n), None)
  end.

(** The loop [for rows.Next()] of [GetList]: scan a name, append it. *)
Fixpoint scan_names (rows : list string) (node_list : list string) : list string :=
  match rows with
  | [] => node_list
  | node_name :: rows' => scan_names rows' (node_list ++ [node_name])
  end.

(** [GetList].  [log.Fatal] ends the process; it is the [Panic] outcome
    here. *)
Definition GetList (w : World) : outcome (list string) :=
  let node_list : list string := [] in
  if UseMySQL w then
    let '(rows, err) := Sql.Query_names (Dbh w) in
    match err with
    | Some e =>
        if negb (is_ErrNoRows e) then Panic (error_text e)
        else Ret node_list
    | None => Ret (scan_names rows [])
    end
  else Ret (ds_GetList (dsc w) "node").

Definition GetName (n : Node) : string := Name n.
Definition URLType (n : Node) : string := "nodes".

End node_more.

(** ** A sample validation collaborator *)

(** The rules of the validators belong to another package.  This instance
    is a plain implementation of their contracts, used to run the
    operations on concrete inputs. *)
Module Sample.

Definition strings_of (l : list value) : option (list string) :=
  mapM (λ v, match v with VString s => Some s | _ => None end) l.

Definition run_list (v : value) : list string * option Gerror :=
  match v with
  | VNil => ([], None)
  | VStrings l => (l, None)
  | VArray l =>
      match strings_of l with
      | Some l' => (l', None)
      | None => ([], Some (Errorf "Field 'run_list' is not a valid run list"))
      end
  | _ => ([], Some (Errorf "Field 'run_list' is not a valid run list"))
  end.

Definition attributes (key : string) (v : value) : gmap string value * option Gerror :=
  match v with
  | VNil => (∅, None)
  | VMap m => (m, None)
  | _ => (∅, Some (Errorf ("Field '" +:+ key +:+ "' is not a hash")))
  end.

Definition name_char (c : Ascii.ascii) : bool :=
  let n := Ascii.nat_of_ascii c in
  ((48 <=? n) && (n <=? 57)) || ((65 <=? n) && (n <=? 90))
  || ((97 <=? n) && (n <=? 122)) || (n =? 95) || (n =? 45).

Definition name_ok (s : string) : bool :=
  negb (String.eqb s "") && forallb name_char (String.list_ascii_of_string s).

#[export] Instance validators : Validators := {|
  ValidateRunList := run_list;
  ValidateAttributes := attributes;
  ValidateEnvName := name_ok;
  ValidateDBagName := name_ok;
|}.

End Sample.

(** ** Vocabulary of the statements *)

(** A node is stored under [name]: a row of the [nodes] table has the name
    (relational backend), or the data store has the key (in-memory
    backend). *)
Definition node_stored (w : World) (name : string) : Prop :=
  if UseMySQL w
  then ∃ r, r ∈ nodes (Dbh w) ∧ row_name r = name
  else is_Some (dsc w !! ("node", name)).


(** What a tag-like field of the updated node must be, given the value [v]
    the input has for it, the value [current] of the existing node and the
    rule [accepts] for a value that is present. *)
Definition tag_result (v : value) (current : string) (accepts : string → bool)
    (result : string) : Prop :=
  match v with
  | VNil => result = current
  | VString s => accepts s = true ∧ result = s
  | _ => False
  end.

(** The error a tag-like field causes, if any. *)
Definition tag_error (field : string) (v : value) (accepts : string → bool)
    : option Gerror :=
  match v with
  | VNil => None
  | VString s =>
      if accepts s then None
      else Some (Errorf ("Field '" +:+ field +:+ "' invalid"))
  | _ => Some (Errorf "Field 'name' missing")
  end.

(** The value a tag-like field is given in the input mapping. *)
Definition tag_value (v : value) (current : string) : string :=
  match v with
  | VNil => current
  | VString s => s
  | _ => ""
  end.

(** The validations after the key check, as a table: each entry names the
    key it reads and writes, and maps the value read to the value written
    and the error found. *)
Definition field_step : Type := string * (value → value * option Gerror).

Fixpoint run_steps (steps : list field_step) (json_node : gmap string value)
    : gmap string value * option Gerror :=
  match steps with
  | [] => (json_node, None)
  | (k, f) :: rest =>
      let '(v, verr) := f (map_index json_node k) in
      let json_node := <[k := v]> json_node in
      match verr with
      | Some e => (json_node, Some e)
      | None => run_steps rest json_node
      end
  end.

Section steps.
Context `{!Validators}.

Definition run_list_step : field_step :=
  ("run_list", λ v, let '(rl, verr) := ValidateRunList v in (VStrings rl, verr)).

Definition attr_step (a : string) : field_step :=
  (a, λ v, let '(m, verr) := ValidateAttributes a v in (VMap m, verr)).

Definition tag_step (field current : string) (accepts : string → bool) : field_step :=
  (field, λ v, (VString (tag_value v current), tag_error field v accepts)).

Definition update_steps (n : Node) : list field_step :=
  [run_list_step;
   attr_step "normal"; attr_step "automatic"; attr_step "default";
   attr_step "override";
   tag_step "chef_environment" (ChefEnvironment n) ValidateEnvName;
   tag_step "json_class" (JsonClass n) is_json_class;
   tag_step "chef_type" (ChefType n) is_chef_type].

(** The node a successful update leaves: the name is kept, every other
    field is the value its validation step wrote. *)
Definition updated_node (n : Node) (json_node : gmap string value) : Node :=
  mkNode (Name n)
    (tag_value (map_index json_node "chef_environment") (ChefEnvironment n))
    (ValidateRunList (map_index json_node "run_list")).1
    (tag_value (map_index json_node "json_class") (JsonClass n))
    (tag_value (map_index json_node "chef_type") (ChefType n))
    (ValidateAttributes "automatic" (map_index json_node "automatic")).1
    (ValidateAttributes "normal" (map_index json_node "normal")).1
    (ValidateAttributes "default" (map_index json_node "default")).1
    (ValidateAttributes "override" (map_index json_node "override")).1.

(** The error of the first step that fails. *)
Fixpoint first_error (steps : list field_step) (json_node : gmap string value)
    : option Gerror :=
  match steps with
  | [] => None
  | (k, f) :: rest =>
      match (f (map_index json_node k)).2 with
      | Some e => Some e
      | None => first_error rest json_node
      end
  end.

(** The result of [UpdateFromJson] in terms of the table: the name checks,
    the key check, the steps, and the assignment when none failed. *)
Definition UpdateFromJson_result (keys : list string) (n : Node)
    (json_node : gmap string value) : Node * gmap string value * option Gerror :=
  match map_index json_node "name" with
  | VString node_name =>
      if String.eqb (Name n) node_name then
        match first_invalid_key keys with
        | Some k =>
            (n, json_node, Some (Errorf ("Invalid key " +:+ k +:+ " in request body")))
        | None =>
            match run_steps (update_steps n) json_node with
            | (j', Some e) => (n, j', Some e)
            | (j', None) => (updated_node n json_node, j', None)
            end
        end
      else
        (n, json_node,
         Some (Errorf ("Node name " +:+ Name n +:+ " and " +:+ node_name
                       +:+ " from JSON do not match.")))
  | _ => (n, json_node, Some (Errorf "Field 'name' missing"))
  end.

End steps.

(** The node [New] makes for a name. *)
Definition skeleton (name : string) : Node :=
  mkNode name "_default" [] "Chef::Node" "node" ∅ ∅ ∅ ∅.

(** The keys of the [nodes] table: no two rows share a name, no two rows
    share an identifier. *)
Definition unique_rows (db : database) : Prop :=
  NoDup (row_name <$> nodes db) ∧ NoDup (row_id <$> nodes db).

(** The row [Save] writes for a node: the five encoded columns next to
    the given key, name and environment key. *)
Definition write_row (n : Node) (id : Z) (name : string) (eid : Z) : node_row :=
  mkNodeRow id name eid
    (EncodeBlob (VStrings (RunList n))).1 (EncodeBlob (VMap (Automatic n))).1
    (EncodeBlob (VMap (Normal n))).1 (EncodeBlob (VMap (Default n))).1
    (EncodeBlob (VMap (Override n))).1.

(** The rows after the UPDATE of [Save] for the key [id]. *)
Definition update_rows (n : Node) (id eid : Z) (ns : list node_row) : list node_row :=
  (λ r, if Z.eqb (row_id r) id then write_row n (row_id r) (row_name r) eid else r)
    <$> ns.

(** What a call of [Get] hands back: the node behind the pointer it
    returns, if any, and the error. *)
Definition fetched (o : outcome (World * (option loc * option error)))
    : option (option Node * option error) :=
  match o with
  | Ret (w, (q, err)) => Some (q ≫= λ q, heap w !! q, err)
  | Panic _ => None
  end.

(** The stores other than the heap. *)
Definition same_stores (w w' : World) : Prop :=
  UseMySQL w' = UseMySQL w ∧ Dbh w' = Dbh w ∧ dsc w' = dsc w
  ∧ indexed w' = indexed w.

(** ** Sample data *)

Module Example.

(** The skeleton [New] makes for ["web01"]. *)
Definition web01 : Node :=
  mkNode "web01" "_default" [] "Chef::Node" "node" ∅ ∅ ∅ ∅.

(** ["web01"] with a run list and an override tree, ready to be saved. *)
Definition nginx_override : gmap string value :=
  {[ "nginx" := VMap {[ "port" := VFloat64 4660982220368707584%N;
                      "vhosts" := VArray [VString "a"; VArray []; VMap ∅] ]} ]}.

Definition web01_nginx : Node :=
  mkNode "web01" "_default" ["recipe[nginx]"; "role[web]"] "Chef::Node" "node"
    ∅ ∅ ∅ nginx_override.

(** ["web01"] moved to an environment that no row of [environments]
    names. *)
Definition web01_moved : Node :=
  mkNode "web01" "production" ["recipe[nginx]"] "Chef::Node" "node" ∅ ∅ ∅ ∅.

(** A node without a row, in the same missing environment. *)
Definition db01_moved : Node :=
  mkNode "db01" "production" [] "Chef::Node" "node" ∅ ∅ ∅ ∅.

(** A node whose name is empty. *)
Definition nameless : Node :=
  mkNode "" "_default" [] "Chef::Node" "node" ∅ ∅ ∅ ∅.

Definition empty_database : database := mkDatabase [] [].

(** The in-memory backend with nothing stored. *)
Definition mem_empty : World := mkWorld false empty_database ∅ ∅ [].

(** The in-memory backend holding ["web01"] at location 1. *)
Definition mem_web01 : World :=
  mkWorld false empty_database {[ ("node", "web01") := 1%positive ]}
    {[ 1%positive := web01 ]} [("node", "web01")].

(** The in-memory backend with a nameless node on the heap, not stored. *)
Definition mem_nameless : World :=
  mkWorld false empty_database ∅ {[ 1%positive := nameless ]} [].

(** The relational backend: the [_default] environment and a row for
    ["web01"] whose blobs encode the empty run list and empty trees. *)
Definition web01_row : node_row :=
  mkNodeRow 1 "web01" 1
    (EncodeBlob (VStrings [])).1 (EncodeBlob (VMap ∅)).1 (EncodeBlob (VMap ∅)).1
    (EncodeBlob (VMap ∅)).1 (EncodeBlob (VMap ∅)).1.

Definition sql_database : database :=
  mkDatabase [web01_row] [mkEnvRow 1 "_default"].

Definition sql_web01 (n : Node) : World :=
  mkWorld true sql_database ∅ {[ 1%positive := n ]} [].

(** Inputs of an update. *)
Definition renamed_input : gmap string value :=
  {[ "name" := VString "web02"; "bogus_field" := VBool true ]}.

Definition bogus_input : gmap string value :=
  {[ "name" := VString "web01"; "bogus_field" := VBool true ]}.

Definition two_bogus_input : gmap string value :=
  {[ "name" := VString "web01"; "aaa" := VBool true; "zzz" := VBool false ]}.

Definition run_list_input : gmap string value :=
  {[ "name" := VString "web01";
     "run_list" := VArray [VString "recipe[nginx]"] ]}.

(** [run_list_input] as a successful update leaves it. *)
Definition run_list_output : gmap string value :=
  {[ "name" := VString "web01";
     "run_list" := VStrings ["recipe[nginx]"];
     "normal" := VMap ∅; "automatic" := VMap ∅;
     "default" := VMap ∅; "override" := VMap ∅;
     "chef_environment" := VString "_default";
     "json_class" := VString "Chef::Node";
     "chef_type" := VString "node" ]}.

Definition tags_input : gmap string value :=
  {[ "name" := VString "web01";
     "json_class" := VString "Chef::Node";
     "chef_environment" := VNil ]}.

End Example.

(** States reached from the sample data. *)
Module Reached.
Import Example.

(** [mem_nameless] after [Save] of its node. *)
Definition mem_nameless_saved : World :=
  mkWorld false empty_database {[ ("node", "") := 1%positive ]}
    {[ 1%positive := nameless ]} [("node", "")].

(** [sql_web01 web01_moved] after [Save] of its node: the tables are the
    same, the node has been indexed. *)
Definition sql_web01_moved_saved : World :=
  mkWorld true sql_database ∅ {[ 1%positive := web01_moved ]} [("node", "web01")].

Definition name_only_input : gmap string value := {[ "name" := VString "web01" ]}.

(** A node without a row, in the stored environment. *)
Definition db01 : Node :=
  mkNode "db01" "_default" ["role[db]"] "Chef::Node" "node" ∅ ∅ ∅ ∅.

(** [sql_web01 db01] after [Save] of its node: a second row, with the
    next key. *)
Definition sql_db01_saved : World :=
  mkWorld true
    (mkDatabase [web01_row; write_row db01 2 "db01" 1] [mkEnvRow 1 "_default"])
    ∅ {[ 1%positive := db01 ]} [("node", "db01")].

(** [sql_web01 web01_nginx] after [Save] of its node: the row of
    ["web01"] rewritten. *)
Definition sql_web01_nginx_saved : World :=
  mkWorld true
    (mkDatabase [write_row web01_nginx 1 "web01" 1] [mkEnvRow 1 "_default"])
    ∅ {[ 1%positive := web01_nginx ]} [("node", "web01")].

(** [sql_db01_saved] after [Delete] of ["db01"]. *)
Definition sql_db01_deleted : World :=
  mkWorld true sql_database ∅ {[ 1%positive := db01 ]} [].

(** [name_only_input] as a successful update leaves it. *)
Definition run_list_output_of_name : gmap string value :=
  {[ "name" := VString "web01";
     "run_list" := VStrings [];
     "normal" := VMap ∅; "automatic" := VMap ∅;
     "default" := VMap ∅; "override" := VMap ∅;
     "chef_environment" := VString "_default";
     "json_class" := VString "Chef::Node";
     "chef_type" := VString "node" ]}.

End Reached.

(* ================================================================== *)
(** * Properties *)

(** ** Induction on values *)

Lemma value_size_array_elem (l : list value) (x : value) :
  x ∈ l → value_size x < value_size (VArray l).
Proof.
  cbn [value_size]. induction 1 as [x l|x y l _ IH]; simpl; lia.
Qed.

Lemma value_size_map_elem (m : gmap string value) (k : string) (x : value) :
  m !! k = Some x → value_size x < value_size (VMap m).
Proof.
  intros Hk. cbn [value_size].
  rewrite (map_fold_delete_L _ _ k x m); [lia | intros; lia | done].
Qed.

Lemma value_ind' (P : value → Prop) :
  P VNil →
  (∀ s, P (VString s)) →
  (∀ n, P (VFloat64 n)) →
  (∀ b, P (VBool b)) →
  (∀ l, Forall P l → P (VArray l)) →
  (∀ m, map_Forall (λ _, P) m → P (VMap m)) →
  (∀ l, P (VStrings l)) →
  ∀ v, P v.
Proof.
  intros HNil HString HFloat HBool HArray HMap HStrings v.
  remember (value_size v) as n eqn:Hn. revert v Hn.
  induction n as [n IH] using lt_wf_ind. intros v ->.
  destruct v as [|s|bits|b|l|m|l]; auto.
  - apply HArray, Forall_forall. intros x Hx.
    eapply IH; [|reflexivity]. by apply value_size_array_elem.
  - apply HMap. intros k x Hk.
    eapply IH; [|reflexivity]. by eapply value_size_map_elem.
Qed.

(** ** The codec decodes what it encodes *)

Module CodecFacts.
Import Codec.

Lemma decode_pos_encode (p : positive) (rest : blob) :
  decode_pos (encode_pos p ++ rest) = Some (p, rest).
Proof. induction p as [p IH|p IH|]; simpl; rewrite ?IH; reflexivity. Qed.

Lemma decode_N_encode (n : N) (rest : blob) :
  decode_N (encode_N n ++ rest) = Some (n, rest).
Proof.
  destruct n as [|p]; [reflexivity|].
  pose proof (decode_pos_encode p rest) as Hp.
  destruct p; simpl in *; rewrite ?decode_pos_encode in *; reflexivity.
Qed.

Lemma decode_count_encode (n : nat) (rest : blob) :
  decode_count (encode_count n ++ rest) = Some (n, rest).
Proof.
  unfold decode_count, encode_count. rewrite decode_N_encode. simpl.
  by rewrite Nat2N.id.
Qed.

Lemma decode_string_encode (s : string) (rest : blob) :
  decode_string (encode_string s ++ rest) = Some (s, rest).
Proof.
  unfold decode_string, encode_string. cbv zeta.
  rewrite <- app_assoc, decode_count_encode. simpl.
  rewrite decide_True by (rewrite length_app; lia).
  by rewrite take_app_length, drop_app_length, String.string_of_list_byte_of_string.
Qed.

Lemma decode_seq_encode {A} (item : blob → option (A * blob)) (enc : A → blob)
    (l : list A) :
  (∀ x, x ∈ l → ∀ rest, item (enc x ++ rest) = Some (x, rest)) →
  ∀ rest,
    decode_seq item (length l) (foldr (λ x acc, enc x ++ acc) [] l ++ rest)
    = Some (l, rest).
Proof.
  induction l as [|x l IH]; intros Hitem rest; [reflexivity|].
  simpl. rewrite <- app_assoc, Hitem by left. simpl.
  rewrite IH; [reflexivity|]. intros y Hy. apply Hitem. by right.
Qed.

Lemma encode_elem_length {A} (enc : A → blob) (l : list A) (x : A) :
  x ∈ l → length (enc x) ≤ length (foldr (λ x acc, enc x ++ acc) [] l).
Proof.
  induction 1 as [x l|x y l _ IH]; simpl; rewrite length_app; lia.
Qed.

Lemma encode_N_nonempty (n : N) : 0 < length (encode_N n).
Proof. destruct n as [|[p|p|]]; simpl; lia. Qed.

Lemma encode_map_entries (m : gmap string value) :
  map_fold (λ k x acc, encode_string k ++ (tag_of x :: encode_body x) ++ acc) [] m
  = foldr (λ kv acc, encode_entry kv ++ acc) [] (map_to_list m).
Proof.
  rewrite map_fold_foldr. induction (map_to_list m) as [|[k x] l IH]; [done|].
  cbn [foldr uncurry]. rewrite IH. unfold encode_entry, encode_value.
  cbn [fst snd]. by rewrite <- app_assoc.
Qed.

Lemma decode_body_encode (v : value) :
  ∀ fuel rest,
    length (encode_value v) ≤ fuel →
    decode_body fuel (tag_of v) (encode_body v ++ rest) = Some (v, rest).
Proof.
  induction v as [|s|n|b|l IH|m IH|l] using value_ind';
    intros [|fuel] rest Hfuel; simpl in Hfuel; try lia.
  - reflexivity.
  - simpl. by rewrite decode_string_encode.
  - simpl. by rewrite decode_N_encode.
  - by destruct b.
  - cbn [decode_body tag_of encode_body].
    rewrite <- app_assoc, decode_count_encode. simpl.
    rewrite length_app in Hfuel. pose proof (encode_N_nonempty (N.of_nat (length l))).
    rewrite (decode_seq_encode _ encode_value); [reflexivity|].
    intros x Hx rest'. simpl. rewrite Forall_forall in IH. apply IH; [done|].
    pose proof (encode_elem_length encode_value l x Hx). unfold encode_count in *.
    unfold encode_value in *. simpl in *. lia.
  - cbn [decode_body tag_of encode_body].
    rewrite <- app_assoc, decode_count_encode. simpl.
    rewrite length_app in Hfuel. pose proof (encode_N_nonempty (N.of_nat (size m))).
    rewrite encode_map_entries in Hfuel |- *.
    rewrite <- length_map_to_list.
    rewrite (decode_seq_encode _ encode_entry);
      [simpl; by rewrite list_to_map_to_list|].
    intros [k x] Hkx rest'. unfold encode_entry at 1. simpl.
    rewrite <- app_assoc, decode_string_encode. simpl.
    apply elem_of_map_to_list in Hkx as Hk.
    rewrite (IH k x Hk).
    + reflexivity.
    + pose proof (encode_elem_length encode_entry _ _ Hkx) as Hlen.
      unfold encode_entry in Hlen at 1. rewrite length_app in Hlen.
      unfold encode_count in *. simpl in *. lia.
  - cbn [decode_body tag_of encode_body].
    rewrite <- app_assoc, decode_count_encode. simpl.
    rewrite (decode_seq_encode _ encode_string); [reflexivity|].
    intros s _ rest'. apply decode_string_encode.
Qed.

End CodecFacts.

(** Decoding an encoded value at a hint of the same shape gives the value
    back. *)
Lemma DecodeBlob_EncodeBlob (v hint : value) :
  Codec.tag_of hint = Codec.tag_of v →
  DecodeBlob (EncodeBlob v).1 hint = (v, None).
Proof.
  intros Hhint. unfold DecodeBlob, EncodeBlob. cbn [fst]. rewrite Hhint.
  rewrite <- (app_nil_r (Codec.encode_body v)) at 2.
  rewrite CodecFacts.decode_body_encode; [reflexivity|].
  unfold Codec.encode_value. simpl. lia.
Qed.

(** ** Creating a node *)

Section new_facts.
Context `{!Validators}.

Lemma find_name_Some (ns : list node_row) (name : string) :
  (∃ r, r ∈ ns ∧ row_name r = name) →
  ∃ r, find (λ r, String.eqb (row_name r) name) ns = Some r ∧ row_name r = name.
Proof.
  intros (r & Hr & Hname). induction Hr as [r ns|r r' ns _ IH]; simpl.
  - rewrite Hname, String.eqb_refl. eauto.
  - destruct (String.eqb (row_name r') name) eqn:E; [|by apply IH].
    apply String.eqb_eq in E. eauto.
Qed.

(** C6.  Creating a node under a name that is already stored fails with
    the "already exists" error carrying the HTTP conflict status, in
    either backend, and leaves the whole state as it was: no record is
    written and the existing one is not touched. *)
Theorem New_existing_name_conflict (w : World) (name : string) :
  node_stored w name →
  New w name
  = (w, (None, Some (SetStatus (Errorf ("Node " +:+ name +:+ " already exists"))
                               StatusConflict))).
Proof.
  unfold node_stored, New. destruct (UseMySQL w) eqn:Hsql.
  - intros Hrow. unfold CheckForOne, Sql.select_id. simpl.
    destruct (find_name_Some _ _ Hrow) as (r & -> & _). reflexivity.
  - intros Hkey. unfold ds_Get. rewrite bool_decide_eq_true_2 by done.
    reflexivity.
Qed.

End new_facts.

(** ** Fetching a node *)

Section get_facts.
Context `{!Validators}.

Lemma select_node_None (ns : list node_row) (es : list environment_row)
    (name : string) :
  ¬ (∃ r, r ∈ ns ∧ row_name r = name) → Sql.select_node ns es name = None.
Proof.
  intros Hno. induction ns as [|r ns IH]; [done|]. simpl.
  destruct (String.eqb (row_name r) name) eqn:E.
  - apply String.eqb_eq in E. destruct Hno. exists r.
    split; [apply elem_of_cons; by left|done].
  - apply IH. intros (r' & Hr' & Hn). apply Hno. exists r'.
    split; [apply elem_of_cons; by right|done].
Qed.

Lemma deref_alloc (w : World) (n : Node) :
  deref (alloc w n).2 (alloc w n).1 = Ret n.
Proof. unfold deref, alloc. simpl. by rewrite lookup_insert_eq. Qed.

(** C7.  Fetching a name under which no node is stored.  In the relational
    backend the empty result is the ordinary not-found error, no node is
    returned and the stores are as before.  In the in-memory backend the
    type assertion on the nil interface that the data store returned
    panics before the [found] flag is looked at. *)
Theorem Get_missing_node (w : World) (name : string) :
  ¬ node_stored w name →
  if UseMySQL w then
    ∃ w', Get w name
          = Ret (w', (None, Some (ErrorString ("node '" +:+ name +:+ "' not found"))))
          ∧ Dbh w' = Dbh w ∧ dsc w' = dsc w ∧ indexed w' = indexed w
  else
    Get w name = Panic "interface conversion: interface is nil, not *node.Node".
Proof.
  unfold node_stored, Get. destruct (UseMySQL w) eqn:Hsql; intros Hno.
  - destruct (alloc w zero_Node) as [node w1] eqn:Halloc.
    pose proof (deref_alloc w zero_Node) as Hderef. rewrite Halloc in Hderef.
    assert (Dbh w1 = Dbh w ∧ dsc w1 = dsc w ∧ indexed w1 = indexed w
            ∧ UseMySQL w1 = true) as (HDbh & Hdsc & Hidx & Hsql1).
    { unfold alloc in Halloc. by simplify_eq. }
    simpl in Hderef. cbn [Sql.Prepare]. rewrite Hderef. cbn [mbind outcome_bind].
    unfold Sql.QueryRow. rewrite HDbh, select_node_None by done.
    rewrite Hsql1. cbn. eexists. split; [reflexivity|done].
  - unfold ds_Get. destruct (dsc w !! ("node", name)) eqn:Hkey; [|done].
    destruct Hno. by eexists.
Qed.

End get_facts.

(** ** Saving a node *)

Section save_facts.
Context `{!Validators}.

(** C10.  [Save] checks nothing about the node.  In the in-memory backend
    it succeeds for every node, whatever its name: the pointer itself is
    stored under the node's current name and the node is handed to the
    indexer.  The name rule is applied by [New] alone, which refuses the
    very name that [Save] accepts. *)
Theorem Save_in_memory_never_validates (w : World) (p : loc) (n : Node) :
  UseMySQL w = false →
  heap w !! p = Some n →
  Save w p
  = Ret (mkWorld false (Dbh w) (<[("node", Name n) := p]> (dsc w)) (heap w)
                 (indexed w ++ [("node", Name n)]), None)
  ∧ (ValidateDBagName (Name n) = false →
     ¬ node_stored w (Name n) →
     New w (Name n) = (w, (None, Some (Errorf "Field 'name' invalid")))).
Proof.
  intros Hsql Hp. split.
  - unfold Save, deref. rewrite Hp. cbn [mbind outcome_bind]. rewrite Hsql.
    unfold IndexObj, set_indexed, set_dsc, ds_Set, Index, DocId. simpl.
    by rewrite Hsql.
  - intros Hbad Hno. unfold node_stored in Hno. unfold New.
    rewrite Hsql in *. unfold ds_Get.
    rewrite bool_decide_eq_false_2 by done. by rewrite Hbad.
Qed.

(** C5.  Saving, in the relational backend, a node whose
    [chef_environment] names no row of [environments].  When the node has
    no row yet, the environment lookup before the INSERT fails, the
    transaction is rolled back and the lookup's error is returned.  When
    the node has a row, no lookup is made: the UPDATE matches no row, the
    transaction is committed unchanged, the node is indexed and [Save]
    returns nil. *)
Theorem Save_missing_environment (w : World) (p : loc) (n : Node) :
  UseMySQL w = true →
  heap w !! p = Some n →
  Sql.select_id (Dbh w) "environments" (ChefEnvironment n) = None →
  match Sql.select_id (Dbh w) "nodes" (Name n) with
  | None => Save w p = Ret (w, Some ErrNoRows)
  | Some _ => Save w p = Ret (IndexObj w n, None)
  end.
Proof.
  intros Hsql Hp Henv. unfold Save, deref. rewrite Hp. cbn [mbind outcome_bind].
  rewrite Hsql. unfold EncodeBlob, Sql.Begin, CheckForOne.
  destruct (Sql.select_id (Dbh w) "nodes" (Name n)) as [id|] eqn:Hnode.
  - unfold Sql.exec_update. unfold Sql.select_id in Henv. simpl in Henv.
    destruct (find _ (environments (Dbh w))) as [e|]; [done|].
    by destruct w.
  - cbn [is_ErrNoRows negb]. by rewrite Henv.
Qed.

End save_facts.

(** ** Saving and fetching again through the relational backend *)

Section roundtrip_facts.
Context `{!Validators}.

Lemma find_env_by_id (es : list environment_row) (e : environment_row) :
  e ∈ es → ∃ e', find (λ e', Z.eqb (env_id e) (env_id e')) es = Some e'.
Proof.
  induction 1 as [e es|e e0 es _ IH]; simpl.
  - rewrite Z.eqb_refl. eauto.
  - destruct (Z.eqb (env_id e) (env_id e0)); eauto.
Qed.

Lemma find_elem_of {A} (f : A → bool) (l : list A) (x : A) :
  find f l = Some x → x ∈ l.
Proof. intros Hf. apply list_elem_of_In. by apply find_some in Hf as [? _]. Qed.

(** The row written by the UPDATE is the row the joined SELECT returns. *)
Lemma select_node_updated (ns : list node_row) (es : list environment_row)
    (name : string) (r0 : node_row) (e : environment_row) (rlb aab nab dab oab : blob) :
  find (λ r, String.eqb (row_name r) name) ns = Some r0 →
  e ∈ es →
  let upd (r : node_row) : node_row :=
    if Z.eqb (row_id r) (row_id r0)
    then mkNodeRow (row_id r) (row_name r) (env_id e) rlb aab nab dab oab
    else r in
  ∃ e', Sql.select_node (upd <$> ns) es name
        = Some (mkNodeRow (row_id r0) name (env_id e) rlb aab nab dab oab, e').
Proof.
  intros Hfind He upd. induction ns as [|r ns IH]; [done|].
  simpl in Hfind. cbn [fmap list_fmap Sql.select_node].
  assert (row_name (upd r) = row_name r) as Hname.
  { unfold upd. by destruct (Z.eqb (row_id r) (row_id r0)). }
  rewrite Hname. destruct (String.eqb (row_name r) name) eqn:E.
  - simplify_eq. apply String.eqb_eq in E. unfold upd at 1 2.
    rewrite Z.eqb_refl. cbn [row_environment_id].
    destruct (find_env_by_id es e He) as [e' ->]. rewrite E. eauto.
  - by apply IH.
Qed.

(** The row appended by the INSERT is the row the joined SELECT returns. *)
Lemma select_node_inserted (ns : list node_row) (es : list environment_row)
    (r : node_row) (e : environment_row) :
  find (λ r', String.eqb (row_name r') (row_name r)) ns = None →
  e ∈ es →
  row_environment_id r = env_id e →
  ∃ e', Sql.select_node (ns ++ [r]) es (row_name r) = Some (r, e').
Proof.
  intros Hfind He Hid. induction ns as [|r' ns IH]; simpl.
  - rewrite String.eqb_refl, Hid.
    destruct (find_env_by_id es e He) as [e' ->]. eauto.
  - simpl in Hfind. destruct (String.eqb (row_name r') (row_name r)); [done|].
    by apply IH.
Qed.

(** Filling a node from a row whose blob columns were produced by
    [EncodeBlob]. *)
Lemma fillNodeFromSQL_encoded (n0 : Node) (id eid : Z) (name : string)
    (e : environment_row) (rl : list string) (aa na da oa : gmap string value) :
  fillNodeFromSQL true n0
    (Some (mkNodeRow id name eid
             (EncodeBlob (VStrings rl)).1 (EncodeBlob (VMap aa)).1
             (EncodeBlob (VMap na)).1 (EncodeBlob (VMap da)).1
             (EncodeBlob (VMap oa)).1, e))
  = Ret (mkNode name (env_name e) rl "Chef::Node" "node" aa na da oa, None).
Proof.
  unfold fillNodeFromSQL.
  cbn [row_run_list row_automatic_attr row_normal_attr row_default_attr
       row_override_attr row_name].
  repeat (rewrite DecodeBlob_EncodeBlob by reflexivity;
          cbn [mbind outcome_bind assert_strings assert_map]).
  reflexivity.
Qed.

Lemma Get_selected (w : World) (name : string) (id eid : Z)
    (e : environment_row) (rl : list string) (aa na da oa : gmap string value) :
  UseMySQL w = true →
  Sql.QueryRow (Dbh w) name
  = Some (mkNodeRow id name eid
            (EncodeBlob (VStrings rl)).1 (EncodeBlob (VMap aa)).1
            (EncodeBlob (VMap na)).1 (EncodeBlob (VMap da)).1
            (EncodeBlob (VMap oa)).1, e) →
  ∃ w' q,
    Get w name = Ret (w', (Some q, None))
    ∧ heap w' !! q
      = Some (mkNode name (env_name e) rl "Chef::Node" "node" aa na da oa)
    ∧ Dbh w' = Dbh w.
Proof.
  intros Hsql Hrow. unfold Get. rewrite Hsql.
  destruct (alloc w zero_Node) as [node w1] eqn:Halloc.
  pose proof (deref_alloc w zero_Node) as Hderef. rewrite Halloc in Hderef.
  assert (Dbh w1 = Dbh w ∧ UseMySQL w1 = true) as [HDbh Hsql1].
  { unfold alloc in Halloc. by simplify_eq. }
  simpl in Hderef. cbn [Sql.Prepare]. rewrite Hderef. cbn [mbind outcome_bind].
  rewrite HDbh, Hrow, Hsql1, fillNodeFromSQL_encoded.
  eexists _, node. split; [reflexivity|]. simpl. by rewrite lookup_insert_eq.
Qed.

End roundtrip_facts.

Section roundtrip.
Context `{!Validators}.

Lemma select_id_nodes (db : database) (name : string) :
  Sql.select_id db "nodes" name
  = row_id <$> find (λ r, String.eqb (row_name r) name) (nodes db).
Proof. reflexivity. Qed.

Lemma select_id_environments (db : database) (name : string) :
  Sql.select_id db "environments" name
  = env_id <$> find (λ e, String.eqb (env_name e) name) (environments db).
Proof. reflexivity. Qed.

(** The round trip where it holds.  The codec is symmetric: a value
    encoded and then decoded at a hint of its own shape comes back equal,
    whatever its depth and whether or not its maps and sequences are
    empty.  As a consequence a node saved through the relational backend,
    its environment being one of the stored environments, and fetched
    again by name has the run list, in the same order, and the four
    attribute trees that were saved. *)
Theorem blob_roundtrip_save_get :
  (∀ t hint : value,
     Codec.tag_of hint = Codec.tag_of t →
     DecodeBlob (EncodeBlob t).1 hint = (t, None))
  ∧ (∀ (w : World) (p : loc) (n : Node),
       UseMySQL w = true →
       heap w !! p = Some n →
       is_Some (Sql.select_id (Dbh w) "environments" (ChefEnvironment n)) →
       ∃ w1 w2 q n',
         Save w p = Ret (w1, None)
         ∧ Get w1 (Name n) = Ret (w2, (Some q, None))
         ∧ heap w2 !! q = Some n'
         ∧ Name n' = Name n
         ∧ RunList n' = RunList n
         ∧ Automatic n' = Automatic n
         ∧ Normal n' = Normal n
         ∧ Default n' = Default n
         ∧ Override n' = Override n).
Proof.
  split; [apply DecodeBlob_EncodeBlob|].
  intros w p n Hsql Hp [eid Henv].
  rewrite select_id_environments in Henv.
  destruct (find _ (environments (Dbh w))) as [e|] eqn:Hfind_e; [|done].
  apply find_elem_of in Hfind_e as He.
  assert (∃ db e' id eid',
    Save w p = Ret (IndexObj (set_Dbh w db) n, None)
    ∧ Sql.QueryRow db (Name n)
      = Some (mkNodeRow id (Name n) eid'
                (EncodeBlob (VStrings (RunList n))).1
                (EncodeBlob (VMap (Automatic n))).1
                (EncodeBlob (VMap (Normal n))).1
                (EncodeBlob (VMap (Default n))).1
                (EncodeBlob (VMap (Override n))).1, e'))
    as (db & e' & id & eid' & HSave & Hrow).
  { unfold Save, deref. rewrite Hp. cbn [mbind outcome_bind]. rewrite Hsql.
    cbn [EncodeBlob Sql.Begin]. unfold CheckForOne at 1.
    rewrite select_id_nodes.
    destruct (find _ (nodes (Dbh w))) as [r0|] eqn:Hfind_r; cbn [fmap option_fmap option_map].
    - unfold Sql.exec_update. rewrite Hfind_e.
      destruct (select_node_updated (nodes (Dbh w)) (environments (Dbh w))
                  (Name n) r0 e
                  (EncodeBlob (VStrings (RunList n))).1
                  (EncodeBlob (VMap (Automatic n))).1
                  (EncodeBlob (VMap (Normal n))).1
                  (EncodeBlob (VMap (Default n))).1
                  (EncodeBlob (VMap (Override n))).1 Hfind_r He) as [e' Hsel].
      eexists _, e', _, _. split; [reflexivity|]. exact Hsel.
    - cbn [is_ErrNoRows negb]. unfold CheckForOne.
      rewrite select_id_environments, Hfind_e. cbn [fmap option_fmap option_map].
      unfold Sql.exec_insert.
      destruct (select_node_inserted (nodes (Dbh w)) (environments (Dbh w))
                  (mkNodeRow (Sql.next_id (nodes (Dbh w))) (Name n) (env_id e)
                     (EncodeBlob (VStrings (RunList n))).1
                     (EncodeBlob (VMap (Automatic n))).1
                     (EncodeBlob (VMap (Normal n))).1
                     (EncodeBlob (VMap (Default n))).1
                     (EncodeBlob (VMap (Override n))).1) e Hfind_r He eq_refl)
        as [e' Hsel].
      eexists _, e', _, _. split; [reflexivity|]. exact Hsel. }
  destruct (Get_selected (IndexObj (set_Dbh w db) n) (Name n) id eid' e'
              (RunList n) (Automatic n) (Normal n) (Default n) (Override n))
    as (w2 & q & HGet & Hq & _); [exact Hsql|exact Hrow|].
  eexists _, w2, q, _. split; [exact HSave|]. split; [exact HGet|].
  split; [exact Hq|]. by repeat split.
Qed.

End roundtrip.

(** ** Updating a node from JSON *)

Section update_facts.
Context `{!Validators}.

Lemma map_index_Some (m : gmap string value) (k : string) (v : value) :
  m !! k = Some v → map_index m k = v.
Proof. intros Hk. unfold map_index. by rewrite Hk. Qed.

Lemma map_index_insert_eq (m : gmap string value) (k : string) (v : value) :
  map_index (<[k := v]> m) k = v.
Proof. unfold map_index. by rewrite lookup_insert_eq. Qed.

Lemma map_index_insert_ne (m : gmap string value) (k k' : string) (v : value) :
  k ≠ k' → map_index (<[k := v]> m) k' = map_index m k'.
Proof. intros. unfold map_index. by rewrite lookup_insert_ne. Qed.

Lemma validate_tag_eq (field current : string) (accepts : string → bool)
    (json_node : gmap string value) :
  validate_tag field current accepts json_node
  = Ret (<[field := VString (tag_value (map_index json_node field) current)]> json_node,
         tag_error field (map_index json_node field) accepts).
Proof.
  unfold validate_tag, ValidateAsFieldString.
  destruct (map_index json_node field) eqn:Hv; cbn;
    rewrite ?map_index_insert_eq, ?insert_insert_eq; cbn; try reflexivity.
  by destruct (accepts s).
Qed.

Lemma validate_fields_steps (n : Node) (json_node : gmap string value) :
  validate_fields n json_node = Ret (run_steps (update_steps n) json_node).
Proof.
  unfold validate_fields, and_then, validate_run_list, attrs, update_steps.
  cbn [run_steps run_list_step attr_step tag_step validate_attrs mbind outcome_bind].
  repeat match goal with
  | |- context [ValidateRunList ?v] =>
      destruct (ValidateRunList v) as [? [?|]]; cbn; try reflexivity
  | |- context [ValidateAttributes ?a ?v] =>
      destruct (ValidateAttributes a v) as [? [?|]]; cbn; try reflexivity
  end.
  rewrite !validate_tag_eq. cbn.
  repeat match goal with
  | |- context [tag_error ?f ?v ?a] =>
      destruct (tag_error f v a) as [?|]; cbn;
      rewrite ?validate_tag_eq; cbn; try reflexivity
  end.
Qed.

Lemma first_error_insert (steps : list field_step) (json_node : gmap string value)
    (k : string) (v : value) :
  k ∉ steps.*1 →
  first_error steps (<[k := v]> json_node) = first_error steps json_node.
Proof.
  induction steps as [|[k' f] rest IH]; [done|]. cbn. intros Hk.
  apply not_elem_of_cons in Hk as [Hne Hk].
  rewrite map_index_insert_ne by done. by rewrite IH.
Qed.

Lemma run_steps_frame (steps : list field_step) (json_node : gmap string value)
    (k : string) :
  k ∉ steps.*1 → (run_steps steps json_node).1 !! k = json_node !! k.
Proof.
  revert json_node. induction steps as [|[k' f] rest IH]; intros j Hk; [done|].
  cbn in Hk |- *. apply not_elem_of_cons in Hk as [Hne Hk].
  destruct (f (map_index j k')) as [v [e|]]; cbn.
  - by rewrite lookup_insert_ne.
  - rewrite IH by done. by rewrite lookup_insert_ne.
Qed.

Lemma run_steps_error (steps : list field_step) (json_node : gmap string value) :
  NoDup steps.*1 →
  (run_steps steps json_node).2 = first_error steps json_node.
Proof.
  revert json_node. induction steps as [|[k f] rest IH]; intros j Hnd; [done|].
  cbn in Hnd |- *. apply NoDup_cons in Hnd as [Hk Hnd].
  destruct (f (map_index j k)) as [v [e|]]; cbn; [done|].
  rewrite IH by done. by apply first_error_insert.
Qed.

Lemma run_steps_success (steps : list field_step) (json_node : gmap string value)
    (k : string) (f : value → value * option Gerror) :
  NoDup steps.*1 →
  (run_steps steps json_node).2 = None →
  (k, f) ∈ steps →
  (f (map_index json_node k)).2 = None
  ∧ (run_steps steps json_node).1 !! k = Some (f (map_index json_node k)).1.
Proof.
  revert json_node. induction steps as [|[k' f'] rest IH]; intros j Hnd Hok Hin.
  { by apply elem_of_nil in Hin. }
  cbn in Hnd, Hok |- *. apply NoDup_cons in Hnd as [Hk' Hnd].
  destruct (f' (map_index j k')) as [v [e|]] eqn:Hstep; cbn in Hok |- *; [done|].
  apply elem_of_cons in Hin as [Heq|Hin].
  - simplify_eq. rewrite Hstep. split; [done|].
    rewrite run_steps_frame by done. by rewrite lookup_insert_eq.
  - assert (k ≠ k') as Hne.
    { intros ->. apply Hk'. apply list_elem_of_fmap. by exists (k', f). }
    destruct (IH (<[k' := v]> j) Hnd Hok Hin) as [H1 H2].
    rewrite map_index_insert_ne in H1, H2 by done. done.
Qed.

Lemma update_steps_NoDup (n : Node) : NoDup (update_steps n).*1.
Proof. cbn. compute_done. Qed.

Lemma assign_fields_updated (n : Node) (json_node j' : gmap string value) :
  run_steps (update_steps n) json_node = (j', None) →
  assign_fields n j' = Ret (updated_node n json_node).
Proof.
  intros Hrun.
  assert (Forall (λ kf : field_step,
            map_index j' kf.1 = (kf.2 (map_index json_node kf.1)).1)
            (update_steps n)) as Hall.
  { apply Forall_forall. intros [k f] Hin.
    destruct (run_steps_success _ json_node k f (update_steps_NoDup n)) as [_ Hk];
      [by rewrite Hrun|done|].
    rewrite Hrun in Hk. unfold map_index at 1. cbn [fst snd] in Hk |- *.
    by rewrite Hk. }
  unfold update_steps in Hall. rewrite !Forall_cons in Hall.
  destruct Hall as (Hrl & Hno & Hau & Hde & Hov & Henv & Hjc & Hct & _).
  cbn [fst snd run_list_step attr_step tag_step] in Hrl, Hno, Hau, Hde, Hov, Henv, Hjc, Hct.
  unfold assign_fields, updated_node.
  rewrite Henv, Hct, Hjc, Hrl, Hno, Hau, Hde, Hov.
  destruct (ValidateRunList _) as [??].
  repeat match goal with
  | |- context [ValidateAttributes ?a ?v] => destruct (ValidateAttributes a v) as [??]
  end.
  reflexivity.
Qed.

Lemma UpdateFromJson_eq (keys : list string) (n : Node)
    (json_node : gmap string value) :
  UpdateFromJson keys n json_node = Ret (UpdateFromJson_result keys n json_node).
Proof.
  unfold UpdateFromJson, UpdateFromJson_result, ValidateAsString.
  destruct (map_index json_node "name"); try reflexivity.
  destruct (String.eqb (Name n) s); cbn [negb]; [|reflexivity].
  destruct (first_invalid_key keys); [reflexivity|].
  rewrite validate_fields_steps. cbn [mbind outcome_bind].
  destruct (run_steps (update_steps n) json_node) as [j' [e|]] eqn:Hrun;
    [reflexivity|].
  by rewrite (assign_fields_updated n json_node j' Hrun).
Qed.

Lemma set_heap_id (w : World) (p : loc) (n : Node) :
  heap w !! p = Some n → set_heap w (<[p := n]> (heap w)) = w.
Proof. intros Hp. rewrite insert_id by done. by destruct w. Qed.

Lemma Node_UpdateFromJson_eq (w : World) (p : loc) (n : Node) (keys : list string)
    (json_node : gmap string value) :
  heap w !! p = Some n →
  Node_UpdateFromJson w p keys json_node
  = Ret (set_heap w (<[p := (UpdateFromJson_result keys n json_node).1.1]> (heap w)),
         (UpdateFromJson_result keys n json_node).1.2,
         (UpdateFromJson_result keys n json_node).2).
Proof.
  intros Hp. unfold Node_UpdateFromJson, deref. rewrite Hp.
  cbn [mbind outcome_bind]. rewrite UpdateFromJson_eq. cbn [mbind outcome_bind].
  by destruct (UpdateFromJson_result keys n json_node) as [[??]?].
Qed.

(** Whenever the result carries an error the node is the one given. *)
Lemma UpdateFromJson_result_error (keys : list string) (n : Node)
    (json_node : gmap string value) :
  is_Some (UpdateFromJson_result keys n json_node).2 →
  (UpdateFromJson_result keys n json_node).1.1 = n.
Proof.
  unfold UpdateFromJson_result.
  destruct (map_index json_node "name"); try done.
  destruct (String.eqb (Name n) s); [|done].
  destruct (first_invalid_key keys); [done|].
  destruct (run_steps (update_steps n) json_node) as [j' [e|]]; [done|].
  cbn. by intros [??].
Qed.

(** C3.  An update whose [name] is not the name of the node fails and
    changes nothing: the heap object, the database, the data store, the
    index and the input are what they were, so the update path cannot
    rename a node.  When the [name] given is a string, the error is the
    name-mismatch error. *)
Theorem UpdateFromJson_name_mismatch (w : World) (p : loc) (n : Node)
    (keys : list string) (json_node : gmap string value) :
  heap w !! p = Some n →
  map_index json_node "name" ≠ VString (Name n) →
  ∃ e,
    Node_UpdateFromJson w p keys json_node = Ret (w, json_node, Some e)
    ∧ ∀ s, map_index json_node "name" = VString s →
           e = Errorf ("Node name " +:+ Name n +:+ " and " +:+ s
                       +:+ " from JSON do not match.").
Proof.
  intros Hp Hne. rewrite (Node_UpdateFromJson_eq w p n) by done.
  unfold UpdateFromJson_result.
  destruct (map_index json_node "name") as [|s| | | | |] eqn:Hname;
    try (cbn [fst snd]; rewrite (set_heap_id w p n Hp);
         eexists; split; [reflexivity|]; intros s' Hs'; discriminate Hs').
  destruct (String.eqb (Name n) s) eqn:E.
  { apply String.eqb_eq in E. congruence. }
  cbn [fst snd]. rewrite (set_heap_id w p n Hp).
  eexists. split; [reflexivity|]. intros s' Hs'. by simplify_eq.
Qed.

Lemma is_valid_element_elem_of (k : string) (elems : list string) :
  is_valid_element k elems = true ↔ k ∈ elems.
Proof.
  induction elems as [|i rest IH]; simpl.
  - split; [done|]. intros Hk. by apply elem_of_nil in Hk.
  - rewrite elem_of_cons. destruct (String.eqb k i) eqn:E.
    + apply String.eqb_eq in E. split; [by left|done].
    + apply String.eqb_neq in E. rewrite IH. split; [by right|].
      by intros [?|?].
Qed.

Lemma first_invalid_key_Some (keys : list string) (bad : string) :
  bad ∈ keys →
  bad ∉ valid_elements →
  ∃ k pre post,
    keys = pre ++ (k :: post)
    ∧ Forall (λ k', k' ∈ valid_elements) pre
    ∧ (k ∉ valid_elements)
    ∧ first_invalid_key keys = Some k.
Proof.
  intros Hin Hbad. induction keys as [|k0 keys IH].
  { by apply elem_of_nil in Hin. }
  cbn [first_invalid_key]. destruct (is_valid_element k0 valid_elements) eqn:E.
  - apply is_valid_element_elem_of in E.
    apply elem_of_cons in Hin as [->|Hin]; [contradiction|].
    destruct (IH Hin) as (k & pre & post & -> & Hpre & Hk & Hfirst).
    exists k, (k0 :: pre), post. split; [done|]. split; [by constructor|].
    by split.
  - exists k0, [], keys. split; [done|]. split; [constructor|]. split; [|done].
    intros Hk0. apply is_valid_element_elem_of in Hk0. congruence.
Qed.

(** C2, as the code has it.  When the [name] of the input is the name of
    the node and the input has a key outside the accepted set, the update
    fails with the invalid-key error and changes nothing, neither the node
    nor any store.  The key named is the first rejected key in the order
    in which the key loop visits the input. *)
Theorem UpdateFromJson_invalid_key (w : World) (p : loc) (n : Node)
    (keys : list string) (json_node : gmap string value) (bad : string) :
  heap w !! p = Some n →
  json_node !! "name" = Some (VString (Name n)) →
  range_order json_node keys →
  is_Some (json_node !! bad) →
  bad ∉ valid_elements →
  ∃ k pre post,
    keys = pre ++ (k :: post)
    ∧ Forall (λ k', k' ∈ valid_elements) pre
    ∧ (k ∉ valid_elements)
    ∧ is_Some (json_node !! k)
    ∧ Node_UpdateFromJson w p keys json_node
      = Ret (w, json_node,
             Some (Errorf ("Invalid key " +:+ k +:+ " in request body"))).
Proof.
  intros Hp Hname [_ Hkeys] Hbad Hout.
  assert (∀ k, k ∈ keys ↔ is_Some (json_node !! k)) as Hmem.
  { intros k. rewrite <- elem_of_dom, <- Hkeys. by rewrite elem_of_list_to_set. }
  destruct (first_invalid_key_Some keys bad) as (k & pre & post & Heq & Hpre & Hk & Hfirst);
    [by apply Hmem|done|].
  exists k, pre, post. split; [done|]. split; [done|]. split; [done|].
  split. { apply Hmem. rewrite Heq. apply elem_of_app. right. by left. }
  rewrite (Node_UpdateFromJson_eq w p n) by done.
  unfold UpdateFromJson_result. rewrite (map_index_Some _ _ _ Hname).
  rewrite String.eqb_refl, Hfirst. cbn [fst snd].
  by rewrite (set_heap_id w p n Hp).
Qed.

Lemma first_error_update_steps (n : Node) (json_node : gmap string value) :
  first_error (update_steps n) json_node = None →
  (ValidateRunList (map_index json_node "run_list")).2 = None
  ∧ (∀ a, a ∈ attrs → (ValidateAttributes a (map_index json_node a)).2 = None)
  ∧ tag_error "chef_environment" (map_index json_node "chef_environment")
      ValidateEnvName = None
  ∧ tag_error "json_class" (map_index json_node "json_class") is_json_class = None
  ∧ tag_error "chef_type" (map_index json_node "chef_type") is_chef_type = None.
Proof.
  unfold update_steps, run_list_step, attr_step, tag_step, attrs.
  cbn [first_error fst snd].
  destruct (ValidateRunList _) as [? [?|]]; cbn [snd]; [done|].
  repeat match goal with
  | |- context [ValidateAttributes ?a ?v] =>
      destruct (ValidateAttributes a v) as [? [?|]] eqn:?; cbn [snd]; [done|]
  end.
  repeat match goal with
  | |- context [tag_error ?f ?v ?a] =>
      destruct (tag_error f v a) as [?|] eqn:?; [done|]
  end.
  intros _. split; [done|]. split; [|done].
  intros a Ha. repeat (apply elem_of_cons in Ha as [->|Ha]);
    try (by apply elem_of_nil in Ha);
    match goal with
    | Heq : ?x = _ |- ?x.2 = None => by rewrite Heq
    end.
Qed.

(** C8.  [UpdateFromJson] always returns; when it returns an error, of
    whatever validation, the node and every store are as they were before
    the call; and it returns no error only if every validation has passed:
    the name, the keys, the run list, the four attribute trees and the
    three tag-like fields. *)
Theorem UpdateFromJson_error_before_assignment (w : World) (p : loc) (n : Node)
    (keys : list string) (json_node : gmap string value) :
  heap w !! p = Some n →
  ∃ w' json_node' err,
    Node_UpdateFromJson w p keys json_node = Ret (w', json_node', err)
    ∧ (is_Some err → w' = w)
    ∧ (err = None →
       map_index json_node "name" = VString (Name n)
       ∧ first_invalid_key keys = None
       ∧ (ValidateRunList (map_index json_node "run_list")).2 = None
       ∧ (∀ a, a ∈ attrs → (ValidateAttributes a (map_index json_node a)).2 = None)
       ∧ tag_error "chef_environment" (map_index json_node "chef_environment")
           ValidateEnvName = None
       ∧ tag_error "json_class" (map_index json_node "json_class") is_json_class = None
       ∧ tag_error "chef_type" (map_index json_node "chef_type") is_chef_type = None).
Proof.
  intros Hp.
  exists (set_heap w (<[p := (UpdateFromJson_result keys n json_node).1.1]> (heap w))),
    (UpdateFromJson_result keys n json_node).1.2,
    (UpdateFromJson_result keys n json_node).2.
  split; [by apply Node_UpdateFromJson_eq|].
  split.
  - intros Herr. rewrite (UpdateFromJson_result_error keys n json_node Herr).
    by apply set_heap_id.
  - unfold UpdateFromJson_result.
    destruct (map_index json_node "name") as [|s| | | | |]; try done.
    destruct (String.eqb (Name n) s) eqn:E; [|done].
    apply String.eqb_eq in E as <-.
    destruct (first_invalid_key keys); [done|].
    pose proof (run_steps_error (update_steps n) json_node (update_steps_NoDup n)) as Herr.
    destruct (run_steps (update_steps n) json_node) as [j' [e|]]; [done|].
    intros _. split; [done|]. split; [done|].
    apply (first_error_update_steps n). by rewrite <- Herr.
Qed.

Lemma tag_error_None (field : string) (v : value) (current : string)
    (accepts : string → bool) :
  tag_error field v accepts = None →
  tag_result v current accepts (tag_value v current).
Proof.
  destruct v as [|s| | | | |]; cbn; try done.
  by destruct (accepts s).
Qed.

Lemma first_error_tags (n : Node) (json_node : gmap string value) :
  (ValidateRunList (map_index json_node "run_list")).2 = None →
  (∀ a, a ∈ attrs → (ValidateAttributes a (map_index json_node a)).2 = None) →
  first_error (update_steps n) json_node
  = match tag_error "chef_environment" (map_index json_node "chef_environment")
            ValidateEnvName with
    | Some e => Some e
    | None =>
        match tag_error "json_class" (map_index json_node "json_class")
                is_json_class with
        | Some e => Some e
        | None => tag_error "chef_type" (map_index json_node "chef_type") is_chef_type
        end
    end.
Proof.
  intros Hrl Hattrs.
  pose proof (Hattrs "normal" ltac:(compute_done)) as Hno.
  pose proof (Hattrs "automatic" ltac:(compute_done)) as Hau.
  pose proof (Hattrs "default" ltac:(compute_done)) as Hde.
  pose proof (Hattrs "override" ltac:(compute_done)) as Hov.
  unfold update_steps, run_list_step, attr_step, tag_step.
  cbn [first_error fst snd].
  destruct (ValidateRunList _) as [? ?]; cbn [snd] in Hrl |- *; subst.
  destruct (ValidateAttributes "normal" _) as [? ?]; cbn [snd] in Hno |- *; subst.
  destruct (ValidateAttributes "automatic" _) as [? ?]; cbn [snd] in Hau |- *; subst.
  destruct (ValidateAttributes "default" _) as [? ?]; cbn [snd] in Hde |- *; subst.
  destruct (ValidateAttributes "override" _) as [? ?]; cbn [snd] in Hov |- *; subst.
  repeat match goal with
  | |- context [tag_error ?f ?v ?a] => destruct (tag_error f v a) as [?|]; try done
  end.
Qed.

(** C4.  The three tag-like fields.  If the update succeeds, each field of
    the node is the value of the existing node when the input has no value
    or null for it, and otherwise the string given, which then satisfies
    the rule of the field: the environment-name rule for
    [chef_environment], equality with ["Chef::Node"] for [json_class] and
    with ["node"] for [chef_type].  A value that is present and breaks its
    rule therefore makes the update fail; when the validations before the
    tags pass, the error returned is the one of the first such field. *)
Theorem UpdateFromJson_tag_fields (keys : list string) (n : Node)
    (json_node : gmap string value) :
  ∃ n' json_node' err,
    UpdateFromJson keys n json_node = Ret (n', json_node', err)
    ∧ (err = None →
       tag_result (map_index json_node "chef_environment") (ChefEnvironment n)
         ValidateEnvName (ChefEnvironment n')
       ∧ tag_result (map_index json_node "json_class") (JsonClass n)
           is_json_class (JsonClass n')
       ∧ tag_result (map_index json_node "chef_type") (ChefType n)
           is_chef_type (ChefType n'))
    ∧ (map_index json_node "name" = VString (Name n) →
       first_invalid_key keys = None →
       (ValidateRunList (map_index json_node "run_list")).2 = None →
       (∀ a, a ∈ attrs → (ValidateAttributes a (map_index json_node a)).2 = None) →
       err = match tag_error "chef_environment"
                     (map_index json_node "chef_environment") ValidateEnvName with
             | Some e => Some e
             | None =>
                 match tag_error "json_class" (map_index json_node "json_class")
                         is_json_class with
                 | Some e => Some e
                 | None =>
                     tag_error "chef_type" (map_index json_node "chef_type")
                       is_chef_type
                 end
             end).
Proof.
  exists (UpdateFromJson_result keys n json_node).1.1,
    (UpdateFromJson_result keys n json_node).1.2,
    (UpdateFromJson_result keys n json_node).2.
  split.
  { rewrite UpdateFromJson_eq. by destruct (UpdateFromJson_result _ _ _) as [[??]?]. }
  pose proof (run_steps_error (update_steps n) json_node (update_steps_NoDup n)) as Herr.
  unfold UpdateFromJson_result. split.
  - destruct (map_index json_node "name") as [|s| | | | |] eqn:Hname; try done.
    destruct (String.eqb (Name n) s); [|done].
    destruct (first_invalid_key keys); [done|].
    destruct (run_steps (update_steps n) json_node) as [j' [e|]]; [done|].
    intros _. cbn [fst snd] in Herr |- *. symmetry in Herr.
    apply first_error_update_steps in Herr as (_ & _ & Henv & Hjc & Hct).
    unfold updated_node. cbn [ChefEnvironment JsonClass ChefType].
    split; [by eapply tag_error_None|]. split; by eapply tag_error_None.
  - intros Hname Hkeys Hrl Hattrs. rewrite Hname, String.eqb_refl, Hkeys.
    rewrite <- (first_error_tags n json_node Hrl Hattrs), <- Herr.
    by destruct (run_steps (update_steps n) json_node) as [j' [e|]].
Qed.



End update_facts.

(** ** The statements on sample data *)

Section samples.
Import Sample Example.

Lemma blob_roundtrip_save_get_witness :
  DecodeBlob (EncodeBlob (VMap nginx_override)).1 (VMap ∅)
  = (VMap nginx_override, None)
  ∧ ∃ w1 w2 q n',
      Save (sql_web01 web01_nginx) 1%positive = Ret (w1, None)
      ∧ Get w1 "web01" = Ret (w2, (Some q, None))
      ∧ heap w2 !! q = Some n'
      ∧ Name n' = "web01"
      ∧ RunList n' = ["recipe[nginx]"; "role[web]"]
      ∧ Automatic n' = ∅
      ∧ Normal n' = ∅
      ∧ Default n' = ∅
      ∧ Override n' = nginx_override.
Proof.
  destruct blob_roundtrip_save_get as [Hcodec Hsave]. split.
  - apply Hcodec. reflexivity.
  - apply (Hsave (sql_web01 web01_nginx) 1%positive web01_nginx).
    + reflexivity.
    + reflexivity.
    + exists 1%Z. reflexivity.
Defined.

Lemma New_existing_name_conflict_witness :
  New mem_web01 "web01"
  = (mem_web01,
     (None, Some (mkGerror "Node web01 already exists" (Some 409%Z))))
  ∧ New (sql_web01 web01) "web01"
    = (sql_web01 web01,
       (None, Some (mkGerror "Node web01 already exists" (Some 409%Z)))).
Proof.
  split.
  - apply (New_existing_name_conflict mem_web01 "web01").
    by exists 1%positive.
  - apply (New_existing_name_conflict (sql_web01 web01) "web01").
    exists web01_row. split; [by left|reflexivity].
Defined.

Lemma Get_missing_node_witness :
  Get mem_empty "web01"
  = Panic "interface conversion: interface is nil, not *node.Node"
  ∧ ∃ w', Get (sql_web01 web01) "web02"
          = Ret (w', (None, Some (ErrorString "node 'web02' not found"))).
Proof.
  split.
  - apply (Get_missing_node mem_empty "web01"). by intros [? ?].
  - destruct (Get_missing_node (sql_web01 web01) "web02") as (w' & HGet & _).
    + intros (r & Hr & Hname). apply list_elem_of_singleton in Hr as ->.
      discriminate Hname.
    + by exists w'.
Defined.

Lemma Save_in_memory_never_validates_witness :
  Save mem_nameless 1%positive
  = Ret (mkWorld false empty_database {[ ("node", "") := 1%positive ]}
           {[ 1%positive := nameless ]} [("node", "")], None)
  ∧ New mem_nameless "" = (mem_nameless, (None, Some (Errorf "Field 'name' invalid"))).
Proof.
  destruct (Save_in_memory_never_validates mem_nameless 1%positive nameless)
    as [Hsave Hnew]; [reflexivity|reflexivity|].
  split; [exact Hsave|]. apply Hnew; [reflexivity|]. by intros [? ?].
Defined.

Lemma Save_missing_environment_witness :
  Save (sql_web01 web01_moved) 1%positive
  = Ret (mkWorld true sql_database ∅ {[ 1%positive := web01_moved ]}
           [("node", "web01")], None)
  ∧ Save (sql_web01 db01_moved) 1%positive
    = Ret (sql_web01 db01_moved, Some ErrNoRows).
Proof.
  split.
  - apply (Save_missing_environment (sql_web01 web01_moved) 1%positive web01_moved);
      reflexivity.
  - apply (Save_missing_environment (sql_web01 db01_moved) 1%positive db01_moved);
      reflexivity.
Defined.

Lemma UpdateFromJson_name_mismatch_witness :
  Node_UpdateFromJson mem_web01 1%positive ["name"; "bogus_field"] renamed_input
  = Ret (mem_web01, renamed_input,
         Some (Errorf "Node name web01 and web02 from JSON do not match.")).
Proof.
  destruct (UpdateFromJson_name_mismatch mem_web01 1%positive web01
              ["name"; "bogus_field"] renamed_input)
    as (e & Hupdate & He); [reflexivity|discriminate|].
  rewrite Hupdate, (He "web02"); reflexivity.
Defined.

Lemma UpdateFromJson_invalid_key_witness :
  ∃ k pre post,
    ["name"; "bogus_field"] = pre ++ (k :: post)
    ∧ Forall (λ k', k' ∈ valid_elements) pre
    ∧ (k ∉ valid_elements)
    ∧ is_Some (bogus_input !! k)
    ∧ Node_UpdateFromJson mem_web01 1%positive ["name"; "bogus_field"] bogus_input
      = Ret (mem_web01, bogus_input,
             Some (Errorf ("Invalid key " +:+ k +:+ " in request body"))).
Proof.
  apply (UpdateFromJson_invalid_key mem_web01 1%positive web01
           ["name"; "bogus_field"] bogus_input "bogus_field").
  - reflexivity.
  - reflexivity.
  - split; [compute_done|]. vm_compute. reflexivity.
  - by exists (VBool true).
  - compute_done.
Defined.

(** C2 does not hold as stated.  An input with a rejected key whose [name]
    is not the name of the node fails with the name-mismatch error, which
    is checked first; and for an input with two rejected keys the key
    named in the error depends on the order in which the key loop visits
    the mapping, which the mapping does not fix. *)
Lemma UpdateFromJson_invalid_key_counterexample :
  UpdateFromJson ["name"; "bogus_field"] web01 renamed_input
  = Ret (web01, renamed_input,
         Some (Errorf "Node name web01 and web02 from JSON do not match."))
  ∧ range_order two_bogus_input ["aaa"; "zzz"; "name"]
  ∧ range_order two_bogus_input ["zzz"; "name"; "aaa"]
  ∧ UpdateFromJson ["aaa"; "zzz"; "name"] web01 two_bogus_input
    = Ret (web01, two_bogus_input, Some (Errorf "Invalid key aaa in request body"))
  ∧ UpdateFromJson ["zzz"; "name"; "aaa"] web01 two_bogus_input
    = Ret (web01, two_bogus_input, Some (Errorf "Invalid key zzz in request body")).
Proof.
  split; [reflexivity|].
  split; [split; [compute_done|by vm_compute]|].
  split; [split; [compute_done|by vm_compute]|].
  split; reflexivity.
Qed.

Lemma UpdateFromJson_tag_fields_witness :
  ∃ n' json_node',
    UpdateFromJson ["name"; "json_class"; "chef_environment"] web01_moved tags_input
    = Ret (n', json_node', None)
    ∧ ChefEnvironment n' = "production"
    ∧ JsonClass n' = "Chef::Node"
    ∧ ChefType n' = "node".
Proof.
  destruct (UpdateFromJson_tag_fields
              ["name"; "json_class"; "chef_environment"] web01_moved tags_input)
    as (n' & json_node' & err & Hupdate & Hok & Herr).
  assert (err = None) as ->.
  { apply Herr; [reflexivity|reflexivity|reflexivity|].
    intros a Ha. repeat (apply elem_of_cons in Ha as [->|Ha]); try reflexivity.
    by apply elem_of_nil in Ha. }
  destruct (Hok eq_refl) as (Henv & [_ Hjc] & Hct).
  exists n', json_node'. by repeat split.
Defined.

Lemma UpdateFromJson_error_before_assignment_witness :
  ∃ w' json_node' err,
    Node_UpdateFromJson mem_web01 1%positive ["name"; "bogus_field"] bogus_input
    = Ret (w', json_node', err)
    ∧ (is_Some err → w' = mem_web01).
Proof.
  destruct (UpdateFromJson_error_before_assignment mem_web01 1%positive web01
              ["name"; "bogus_field"] bogus_input eq_refl)
    as (w' & json_node' & err & Hupdate & Herr & _).
  by exists w', json_node', err.
Defined.



End samples.

(* ================================================================== *)
(** * Further properties of the package *)

(** ** [New] and [NewFromJson] *)

Section create_facts.
Context `{!Validators}.

Lemma find_row_name_None (ns : list node_row) (name : string) :
  ¬ (∃ r, r ∈ ns ∧ row_name r = name) →
  find (λ r, String.eqb (row_name r) name) ns = None.
Proof.
  intros Hno. induction ns as [|r ns IH]; [done|]. simpl.
  destruct (String.eqb (row_name r) name) eqn:E.
  - apply String.eqb_eq in E. destruct Hno. exists r.
    split; [apply elem_of_cons; by left|done].
  - apply IH. intros (r' & Hr' & Hn). apply Hno. exists r'.
    split; [apply elem_of_cons; by right|done].
Qed.

Lemma fresh_loc_unused (w : World) : heap w !! fresh (dom (heap w)) = None.
Proof. apply not_elem_of_dom, is_fresh. Qed.

(** [New] either refuses, leaving the state as it is, or allocates the
    skeleton at the fresh location. *)
Lemma New_cases (w : World) (name : string) :
  (∃ e, New w name = (w, (None, Some e)))
  ∨ New w name
    = (set_heap w (<[fresh (dom (heap w)) := skeleton name]> (heap w)),
       (Some (fresh (dom (heap w))), None)).
Proof.
  unfold New.
  destruct (if UseMySQL w then _ else _) as [gerr|]; [left; eauto|].
  destruct (ValidateDBagName name); cbn [negb]; [right; reflexivity|left; eauto].
Qed.

(** X1.  For a name that is not stored and passes the name rule, [New]
    returns a pointer to a new object, distinct from every object of the
    heap, holding the defaulted skeleton; nothing is persisted: the
    database, the data store and the index are not touched. *)
Theorem New_fresh_skeleton (w : World) (name : string) :
  ¬ node_stored w name →
  ValidateDBagName name = true →
  ∃ p,
    heap w !! p = None
    ∧ New w name = (set_heap w (<[p := skeleton name]> (heap w)), (Some p, None)).
Proof.
  intros Hno Hvalid. exists (fresh (dom (heap w))).
  split; [apply fresh_loc_unused|].
  unfold node_stored in Hno. unfold New.
  destruct (UseMySQL w) eqn:Hsql.
  - unfold CheckForOne, Sql.select_id. simpl.
    rewrite find_row_name_None by done. cbn. by rewrite Hvalid.
  - unfold ds_Get. rewrite bool_decide_eq_false_2 by done. by rewrite Hvalid.
Qed.

(** X2.  [NewFromJson] always returns, with a node or with an error, and
    persists nothing: the database, the data store and the index are as
    before and no object of the heap is changed.  When it returns a node,
    the node is a new object whose name is the [name] of the upload (the
    name check of [UpdateFromJson] cannot fail here) and whose other
    fields are the validated values of the upload over the defaults of
    the skeleton. *)
Theorem NewFromJson_persists_nothing (w : World) (keys : list string)
    (json_node : gmap string value) :
  ∃ w' json_node' r,
    NewFromJson w keys json_node = Ret (w', json_node', r)
    ∧ same_stores w w'
    ∧ (∀ q n, heap w !! q = Some n → heap w' !! q = Some n)
    ∧ match r with
      | (Some p, None) =>
          ∃ s, map_index json_node "name" = VString s
               ∧ heap w !! p = None
               ∧ heap w' !! p = Some (updated_node (skeleton s) json_node)
               ∧ Name (updated_node (skeleton s) json_node) = s
      | (None, Some _) => True
      | _ => False
      end.
Proof.
  unfold NewFromJson, ValidateAsString.
  destruct (map_index json_node "name") as [|s| | | | |] eqn:Hname;
    try (eexists _, _, _; split; [reflexivity|]; by repeat split).
  destruct (New_cases w s) as [[e ->]| ->].
  { eexists _, _, _. split; [reflexivity|]. by repeat split. }
  set (p := fresh (dom (heap w))).
  set (w1 := set_heap w (<[p := skeleton s]> (heap w))).
  assert (heap w1 !! p = Some (skeleton s)) as Hp by apply lookup_insert_eq.
  rewrite (Node_UpdateFromJson_eq w1 p (skeleton s)) by done.
  cbn [mbind outcome_bind].
  assert (∀ x q n, heap w !! q = Some n →
            heap (set_heap w1 (<[p := x]> (heap w1))) !! q = Some n) as Hold.
  { intros x q n Hq. assert (p ≠ q) as Hne.
    { intros <-. unfold p in Hq. by rewrite fresh_loc_unused in Hq. }
    cbn. by rewrite !lookup_insert_ne. }
  unfold UpdateFromJson_result. rewrite Hname. cbn [Name skeleton].
  rewrite String.eqb_refl.
  destruct (first_invalid_key keys).
  { eexists _, _, _. split; [reflexivity|]. split; [done|]. split; [apply Hold|done]. }
  destruct (run_steps (update_steps (skeleton s)) json_node) as [j' [e|]].
  { eexists _, _, _. split; [reflexivity|]. split; [done|]. split; [apply Hold|done]. }
  eexists _, _, _. split; [reflexivity|]. split; [done|]. split; [apply Hold|].
  exists s. split; [done|]. split; [apply fresh_loc_unused|].
  split; [|reflexivity]. cbn. by rewrite lookup_insert_eq.
Qed.

End create_facts.

(** ** More on [UpdateFromJson] *)

Section update_more.
Context `{!Validators}.

Lemma first_invalid_key_None (keys : list string) :
  (∀ k, k ∈ keys → k ∈ valid_elements) → first_invalid_key keys = None.
Proof.
  induction keys as [|k keys IH]; intros Hall; [done|].
  cbn [first_invalid_key].
  rewrite (proj2 (is_valid_element_elem_of k valid_elements))
    by (apply Hall; by left).
  apply IH. intros k' Hk'. apply Hall. by right.
Qed.

Lemma tag_result_fixed (v : value) (fixed result : string) :
  tag_result v fixed (λ s, String.eqb s fixed) result → result = fixed.
Proof.
  destruct v as [|s| | | | |]; cbn; try done.
  intros [Heq ->]. by apply String.eqb_eq in Heq.
Qed.

(** X3.  Whatever [UpdateFromJson] returns, the name of the node is the
    one it had; and a node whose [json_class] and [chef_type] are the
    fixed values ["Chef::Node"] and ["node"] keeps them: an update can
    confirm the two values, never change them. *)
Theorem UpdateFromJson_keeps_identity (keys : list string) (n n' : Node)
    (json_node json_node' : gmap string value) (err : option Gerror) :
  UpdateFromJson keys n json_node = Ret (n', json_node', err) →
  Name n' = Name n
  ∧ (JsonClass n = "Chef::Node" → JsonClass n' = "Chef::Node")
  ∧ (ChefType n = "node" → ChefType n' = "node").
Proof.
  rewrite UpdateFromJson_eq. intros [= Hres]. revert Hres.
  unfold UpdateFromJson_result.
  assert (∀ j e, (n, j, e) = (n', json_node', err) →
            Name n' = Name n
            ∧ (JsonClass n = "Chef::Node" → JsonClass n' = "Chef::Node")
            ∧ (ChefType n = "node" → ChefType n' = "node")) as Hsame.
  { intros j e [= <- _ _]. by repeat split. }
  destruct (map_index json_node "name") as [|s| | | | |]; try apply Hsame.
  destruct (String.eqb (Name n) s); [|apply Hsame].
  destruct (first_invalid_key keys); [apply Hsame|].
  pose proof (run_steps_error (update_steps n) json_node (update_steps_NoDup n)) as Herr.
  destruct (run_steps (update_steps n) json_node) as [j' [e|]]; [apply Hsame|].
  intros [= <- _ _]. cbn [snd] in Herr. symmetry in Herr.
  apply first_error_update_steps in Herr as (_ & _ & _ & Hjc & Hct).
  cbn [updated_node Name JsonClass ChefType]. split; [done|].
  split; intros Hfixed.
  - apply (tag_error_None _ _ "Chef::Node") in Hjc. rewrite Hfixed.
    unfold is_json_class in Hjc. by apply tag_result_fixed in Hjc.
  - apply (tag_error_None _ _ "node") in Hct. rewrite Hfixed.
    unfold is_chef_type in Hct. by apply tag_result_fixed in Hct.
Qed.

(** X4.  The inputs [UpdateFromJson] accepts.  When the [name] is the
    name of the node, every key of the input is an accepted key, the
    run-list and attribute validators raise no error and no tag-like field
    breaks its rule, the update succeeds, whatever the order in which the
    keys are visited, and the node becomes the node of the validated
    values. *)
Theorem UpdateFromJson_accepts (keys : list string) (n : Node)
    (json_node : gmap string value) :
  map_index json_node "name" = VString (Name n) →
  range_order json_node keys →
  (∀ k, is_Some (json_node !! k) → k ∈ valid_elements) →
  (ValidateRunList (map_index json_node "run_list")).2 = None →
  (∀ a, a ∈ attrs → (ValidateAttributes a (map_index json_node a)).2 = None) →
  tag_error "chef_environment" (map_index json_node "chef_environment")
    ValidateEnvName = None →
  tag_error "json_class" (map_index json_node "json_class") is_json_class = None →
  tag_error "chef_type" (map_index json_node "chef_type") is_chef_type = None →
  ∃ json_node',
    UpdateFromJson keys n json_node
    = Ret (updated_node n json_node, json_node', None).
Proof.
  intros Hname [_ Hkeys] Hvalid Hrl Hattrs Henv Hjc Hct.
  rewrite UpdateFromJson_eq. unfold UpdateFromJson_result.
  rewrite Hname, String.eqb_refl, first_invalid_key_None.
  - pose proof (run_steps_error (update_steps n) json_node (update_steps_NoDup n)) as Herr.
    rewrite (first_error_tags n json_node Hrl Hattrs), Henv, Hjc, Hct in Herr.
    destruct (run_steps (update_steps n) json_node) as [j' [e|]]; [done|].
    by exists j'.
  - intros k Hk. apply Hvalid. rewrite <- elem_of_dom, <- Hkeys.
    by apply elem_of_list_to_set.
Qed.

End update_more.

(** ** More on [Get] *)

Section get_more.
Context `{!Validators}.

Lemma DecodeBlob_strings (data : blob) (hint : list string) (q : value) :
  DecodeBlob data (VStrings hint) = (q, None) → ∃ l, q = VStrings l.
Proof.
  unfold DecodeBlob. cbn [Codec.tag_of Codec.decode_body].
  destruct (Codec.decode_count data) as [[k r]|]; cbn; [|done].
  destruct (Codec.decode_seq Codec.decode_string k r) as [[l [|??]]|]; cbn;
    intros [= <-]; eauto.
Qed.

Lemma DecodeBlob_map (data : blob) (hint : gmap string value) (q : value) :
  DecodeBlob data (VMap hint) = (q, None) → ∃ m, q = VMap m.
Proof.
  unfold DecodeBlob. cbn [Codec.tag_of Codec.decode_body].
  destruct (Codec.decode_count data) as [[k r]|]; cbn; [|done].
  destruct (Codec.decode_seq _ k r) as [[l [|??]]|]; cbn; intros [= <-]; eauto.
Qed.

Lemma DecodeBlob_error (data : blob) (hint q : value) (e : error) :
  DecodeBlob data hint = (q, Some e) → e = ErrCodec "blob does not decode".
Proof.
  unfold DecodeBlob.
  destruct (Codec.decode_body _ _ _) as [[v [|??]]|]; by intros [= <- <-].
Qed.

(** What [fillNodeFromSQL] makes of a row. *)
Lemma fillNodeFromSQL_row (n0 : Node) (r : node_row) (e : environment_row) :
  ∃ n' err,
    fillNodeFromSQL true n0 (Some (r, e)) = Ret (n', err)
    ∧ match err with
      | None =>
          Name n' = row_name r
          ∧ ChefEnvironment n' = env_name e
          ∧ JsonClass n' = "Chef::Node"
          ∧ ChefType n' = "node"
          ∧ DecodeBlob (row_run_list r) (VStrings (RunList n0))
            = (VStrings (RunList n'), None)
          ∧ DecodeBlob (row_automatic_attr r) (VMap (Automatic n0))
            = (VMap (Automatic n'), None)
          ∧ DecodeBlob (row_normal_attr r) (VMap (Normal n0))
            = (VMap (Normal n'), None)
          ∧ DecodeBlob (row_default_attr r) (VMap (Default n0))
            = (VMap (Default n'), None)
          ∧ DecodeBlob (row_override_attr r) (VMap (Override n0))
            = (VMap (Override n'), None)
      | Some e' => e' = ErrCodec "blob does not decode"
      end.
Proof.
  unfold fillNodeFromSQL.
  cbn [RunList Automatic Normal Default Override set_Name set_ChefEnvironment
       set_ChefType set_JsonClass].
  destruct (DecodeBlob (row_run_list r) _) as [q1 [e1|]] eqn:H1.
  { eexists _, _. split; [reflexivity|]. by eapply DecodeBlob_error. }
  destruct (DecodeBlob_strings _ _ _ H1) as [rl ->].
  cbn [mbind outcome_bind assert_strings set_RunList Automatic].
  destruct (DecodeBlob (row_automatic_attr r) _) as [q2 [e2|]] eqn:H2.
  { eexists _, _. split; [reflexivity|]. by eapply DecodeBlob_error. }
  destruct (DecodeBlob_map _ _ _ H2) as [aa ->].
  cbn [mbind outcome_bind assert_map set_Automatic Normal].
  destruct (DecodeBlob (row_normal_attr r) _) as [q3 [e3|]] eqn:H3.
  { eexists _, _. split; [reflexivity|]. by eapply DecodeBlob_error. }
  destruct (DecodeBlob_map _ _ _ H3) as [na ->].
  cbn [mbind outcome_bind assert_map set_Normal Default].
  destruct (DecodeBlob (row_default_attr r) _) as [q4 [e4|]] eqn:H4.
  { eexists _, _. split; [reflexivity|]. by eapply DecodeBlob_error. }
  destruct (DecodeBlob_map _ _ _ H4) as [da ->].
  cbn [mbind outcome_bind assert_map set_Default Override].
  destruct (DecodeBlob (row_override_attr r) _) as [q5 [e5|]] eqn:H5.
  { eexists _, _. split; [reflexivity|]. by eapply DecodeBlob_error. }
  destruct (DecodeBlob_map _ _ _ H5) as [oa ->].
  cbn [mbind outcome_bind assert_map set_Override].
  eexists _, _. split; [reflexivity|]. by repeat split.
Qed.

(** X5.  [Get] in the relational backend.  It always returns, and it only
    reads: the database, the data store and the index are as before and
    no object of the heap is changed.  It returns either a node and no
    error, or no node and an error.  A node returned is a new object,
    never one the heap already holds; it is made from the first row of the
    joined query: name and environment from the row, [json_class] and
    [chef_type] the two fixed values, run list and attribute trees the
    decoded blob columns.  The error is the not-found error exactly when
    the query has no row; when a blob of the row does not decode it is
    the codec error. *)
Theorem Get_relational (w : World) (name : string) :
  UseMySQL w = true →
  ∃ w' r,
    Get w name = Ret (w', r)
    ∧ same_stores w w'
    ∧ (∀ q n, heap w !! q = Some n → heap w' !! q = Some n)
    ∧ match r with
      | (Some q, None) =>
          heap w !! q = None
          ∧ ∃ row e n',
              Sql.QueryRow (Dbh w) name = Some (row, e)
              ∧ heap w' !! q = Some n'
              ∧ Name n' = row_name row
              ∧ ChefEnvironment n' = env_name e
              ∧ JsonClass n' = "Chef::Node"
              ∧ ChefType n' = "node"
              ∧ DecodeBlob (row_run_list row) (VStrings [])
                = (VStrings (RunList n'), None)
              ∧ DecodeBlob (row_automatic_attr row) (VMap ∅)
                = (VMap (Automatic n'), None)
              ∧ DecodeBlob (row_normal_attr row) (VMap ∅)
                = (VMap (Normal n'), None)
              ∧ DecodeBlob (row_default_attr row) (VMap ∅)
                = (VMap (Default n'), None)
              ∧ DecodeBlob (row_override_attr row) (VMap ∅)
                = (VMap (Override n'), None)
      | (None, Some err) =>
          match Sql.QueryRow (Dbh w) name with
          | None => err = ErrorString ("node '" +:+ name +:+ "' not found")
          | Some _ => err = ErrCodec "blob does not decode"
          end
      | _ => False
      end.
Proof.
  intros Hsql. unfold Get. rewrite Hsql.
  set (p := fresh (dom (heap w))).
  assert (∀ x q n, heap w !! q = Some n →
            heap (set_heap (alloc w zero_Node).2
                    (<[p := x]> (heap (alloc w zero_Node).2))) !! q = Some n)
    as Hold.
  { intros x q n Hq. assert (p ≠ q) as Hne.
    { intros <-. unfold p in Hq. by rewrite fresh_loc_unused in Hq. }
    cbn. by rewrite !lookup_insert_ne. }
  pose proof (deref_alloc w zero_Node) as Hderef.
  change (alloc w zero_Node) with (p, (alloc w zero_Node).2) in Hderef |- *.
  cbn [fst snd] in Hderef. cbv iota. cbn [Sql.Prepare]. rewrite Hderef.
  cbn [mbind outcome_bind].
  change (Dbh (alloc w zero_Node).2) with (Dbh w).
  change (UseMySQL (alloc w zero_Node).2) with (UseMySQL w). rewrite Hsql.
  destruct (Sql.QueryRow (Dbh w) name) as [[row e]|] eqn:Hrow.
  - destruct (fillNodeFromSQL_row zero_Node row e) as (n' & err & -> & Hfill).
    cbn [mbind outcome_bind]. destruct err as [err|].
    + subst err. cbn [is_ErrNoRows].
      eexists _, _. split; [reflexivity|]. split; [done|]. split; [apply Hold|done].
    + eexists _, _. split; [reflexivity|]. split; [done|]. split; [apply Hold|].
      split; [apply fresh_loc_unused|]. exists row, e, n'.
      split; [done|]. split; [|exact Hfill]. cbn. by rewrite lookup_insert_eq.
  - cbn [fillNodeFromSQL mbind outcome_bind is_ErrNoRows].
    eexists _, _. split; [reflexivity|]. split; [done|]. split; [apply Hold|done].
Qed.

End get_more.

(** ** The in-memory backend stores pointers *)

Section alias_facts.
Context `{!Validators}.

Lemma Save_in_memory_eq (w : World) (p : loc) (n : Node) :
  UseMySQL w = false →
  heap w !! p = Some n →
  Save w p
  = Ret (IndexObj (set_dsc w (<[("node", Name n) := p]> (dsc w))) n, None).
Proof.
  intros Hsql Hp. unfold Save, deref. rewrite Hp. cbn [mbind outcome_bind].
  by rewrite Hsql.
Qed.

Lemma Get_in_memory_eq (w : World) (name : string) (p : loc) :
  UseMySQL w = false →
  dsc w !! ("node", name) = Some p →
  Get w name = Ret (w, (Some p, None)).
Proof.
  intros Hsql Hkey. unfold Get, ds_Get. rewrite Hsql, Hkey.
  by rewrite bool_decide_eq_true_2.
Qed.

Lemma UpdateFromJson_result_success (keys : list string) (n : Node)
    (json_node : gmap string value) :
  (UpdateFromJson_result keys n json_node).2 = None →
  (UpdateFromJson_result keys n json_node).1.1 = updated_node n json_node.
Proof.
  unfold UpdateFromJson_result.
  destruct (map_index json_node "name"); try done.
  destruct (String.eqb (Name n) s); [|done].
  destruct (first_invalid_key keys); [done|].
  by destruct (run_steps (update_steps n) json_node) as [j' [e|]].
Qed.

(** X6.  In the in-memory backend a saved node and the stored node are one
    object.  After [Save], [Get] by the node's name returns the very
    pointer that was saved and changes nothing; and a successful
    [UpdateFromJson] through that pointer is seen by the next [Get]
    without another [Save]: the data store is not written, yet the node
    it returns has the updated fields. *)
Theorem in_memory_store_aliases (w : World) (p : loc) (n : Node)
    (keys : list string) (json_node : gmap string value) :
  UseMySQL w = false →
  heap w !! p = Some n →
  ∃ w1,
    Save w p = Ret (w1, None)
    ∧ Get w1 (Name n) = Ret (w1, (Some p, None))
    ∧ ∀ w2 json_node',
        Node_UpdateFromJson w1 p keys json_node = Ret (w2, json_node', None) →
        dsc w2 = dsc w1
        ∧ Get w2 (Name n) = Ret (w2, (Some p, None))
        ∧ heap w2 !! p = Some (updated_node n json_node).
Proof.
  intros Hsql Hp. eexists. split; [by apply Save_in_memory_eq|].
  split.
  { apply Get_in_memory_eq; [done|]. cbn. by rewrite lookup_insert_eq. }
  intros w2 json_node'.
  rewrite (Node_UpdateFromJson_eq _ p n) by done. intros [= <- _ Herr].
  split; [done|]. split.
  - apply Get_in_memory_eq; [done|]. cbn. by rewrite lookup_insert_eq.
  - cbn. rewrite lookup_insert_eq. by rewrite UpdateFromJson_result_success.
Qed.

End alias_facts.

(** ** [Delete] and [GetList] *)

Section delete_facts.
Context `{!Validators}.

Lemma Delete_eq (w : World) (p : loc) (n : Node) :
  heap w !! p = Some n →
  Delete w p
  = Ret (DeleteItemFromCollection
           (if UseMySQL w
            then set_Dbh w (mkDatabase
                              (filter (λ r, row_name r ≠ Name n) (nodes (Dbh w)))
                              (environments (Dbh w)))
            else set_dsc w (delete ("node", Name n) (dsc w)))
           "node" (Name n), None).
Proof.
  intros Hp. unfold Delete, deref. rewrite Hp. cbn [mbind outcome_bind].
  by destruct (UseMySQL w).
Qed.

Lemma filter_all {A} (P : A → Prop) `{!∀ x, Decision (P x)} (l : list A) :
  (∀ x, x ∈ l → P x) → filter P l = l.
Proof.
  induction l as [|x l IH]; intros Hall; [done|].
  rewrite filter_cons_True by (apply Hall; by left).
  f_equal. apply IH. intros y Hy. apply Hall. by right.
Qed.

(** X7.  [Delete] never fails.  Afterwards no node is stored under the
    name and the index has no entry for it; the nodes stored under other
    names and the other entries of the index are the same as before; the
    environments are not touched, and the object deleted stays on the heap
    as it was. *)
Theorem Delete_removes (w : World) (p : loc) (n : Node) :
  heap w !! p = Some n →
  ∃ w',
    Delete w p = Ret (w', None)
    ∧ ¬ node_stored w' (Name n)
    ∧ (∀ name, name ≠ Name n → node_stored w' name ↔ node_stored w name)
    ∧ (∀ doc, doc ∈ indexed w' ↔ doc ≠ ("node", Name n) ∧ doc ∈ indexed w)
    ∧ heap w' = heap w
    ∧ environments (Dbh w') = environments (Dbh w)
    ∧ UseMySQL w' = UseMySQL w.
Proof.
  intros Hp. eexists. split; [by apply Delete_eq|].
  unfold node_stored, DeleteItemFromCollection.
  destruct (UseMySQL w) eqn:Hsql; cbn; rewrite ?Hsql.
  - split.
    { intros (r & Hr & Hname). apply list_elem_of_filter in Hr as [Hr _]. done. }
    split.
    { intros name Hne. split.
      - intros (r & Hr & Hname). apply list_elem_of_filter in Hr as [_ Hr]. eauto.
      - intros (r & Hr & Hname). exists r. split; [|done].
        apply list_elem_of_filter. split; [congruence|done]. }
    split; [|done]. intros doc. by rewrite list_elem_of_filter.
  - split. { rewrite lookup_delete_eq. by intros [? ?]. }
    split.
    { intros name Hne. rewrite lookup_delete_ne; [done|congruence]. }
    split; [|done]. intros doc. by rewrite list_elem_of_filter.
Qed.

(** X8.  Deleting a node that is not stored and not indexed is not an
    error and changes nothing at all. *)
Theorem Delete_absent (w : World) (p : loc) (n : Node) :
  heap w !! p = Some n →
  ¬ node_stored w (Name n) →
  ("node", Name n) ∉ indexed w →
  Delete w p = Ret (w, None).
Proof.
  intros Hp Hno Hidx. rewrite (Delete_eq w p n Hp). f_equal. f_equal.
  unfold node_stored in Hno. unfold DeleteItemFromCollection.
  destruct w as [sql db d h idx]. cbn in *. destruct sql; cbn.
  - rewrite !filter_all; [by destruct db| |].
    + intros doc Hdoc ->. done.
    + intros r Hr Hname. apply Hno. eauto.
  - rewrite filter_all by (intros doc Hdoc ->; done).
    rewrite delete_id; [done|]. by apply eq_None_not_Some.
Qed.

Lemma scan_names_app (rows node_list : list string) :
  scan_names rows node_list = node_list ++ rows.
Proof.
  revert node_list. induction rows as [|x rows IH]; intros acc; simpl.
  - by rewrite app_nil_r.
  - by rewrite IH, <- app_assoc.
Qed.

(** X9.  [GetList] returns the names under which nodes are stored: a name
    is in the list exactly when a node is stored under it.  In the
    relational backend the list is the [name] column of [nodes], row by
    row. *)
Theorem GetList_stored (w : World) :
  ∃ l,
    GetList w = Ret l
    ∧ (UseMySQL w = true → l = row_name <$> nodes (Dbh w))
    ∧ ∀ name, name ∈ l ↔ node_stored w name.
Proof.
  unfold GetList, node_stored. destruct (UseMySQL w); cbn.
  - eexists. split; [reflexivity|]. rewrite scan_names_app. cbn.
    split; [done|]. intros name. rewrite list_elem_of_fmap.
    split; [intros (r & -> & Hr)|intros (r & Hr & <-)]; eauto.
  - eexists. split; [reflexivity|]. split; [done|]. intros name.
    unfold ds_GetList. rewrite list_elem_of_fmap. split.
    + intros ([[kind key] q] & -> & Hin). apply list_elem_of_filter in Hin as [Hk Hin].
      cbn in Hk |- *. subst kind. apply elem_of_map_to_list in Hin. eauto.
    + intros [q Hq]. exists (("node", name), q). split; [done|].
      apply list_elem_of_filter. split; [done|]. by apply elem_of_map_to_list.
Qed.

End delete_facts.

(** ** More on [Save] *)

Section save_more.
Context `{!Validators}.

(** [Save] in the relational backend, branch by branch. *)
Lemma Save_relational_eq (w : World) (p : loc) (n : Node) :
  UseMySQL w = true →
  heap w !! p = Some n →
  Save w p
  = Ret
      match find (λ r, String.eqb (row_name r) (Name n)) (nodes (Dbh w)),
            find (λ e, String.eqb (env_name e) (ChefEnvironment n))
              (environments (Dbh w)) with
      | Some r0, Some e =>
          (IndexObj (set_Dbh w (mkDatabase
                       (update_rows n (row_id r0) (env_id e) (nodes (Dbh w)))
                       (environments (Dbh w)))) n, None)
      | Some r0, None => (IndexObj w n, None)
      | None, Some e =>
          (IndexObj (set_Dbh w (mkDatabase
                       (nodes (Dbh w)
                        ++ [write_row n (Sql.next_id (nodes (Dbh w))) (Name n)
                              (env_id e)])
                       (environments (Dbh w)))) n, None)
      | None, None => (w, Some ErrNoRows)
      end.
Proof.
  intros Hsql Hp. unfold Save, deref. rewrite Hp. cbn [mbind outcome_bind].
  rewrite Hsql. cbn [EncodeBlob Sql.Begin]. unfold CheckForOne.
  rewrite select_id_nodes, select_id_environments.
  destruct (find _ (nodes (Dbh w))) as [r0|];
    cbn [fmap option_fmap option_map is_ErrNoRows negb].
  - unfold Sql.exec_update.
    destruct (find _ (environments (Dbh w))) as [e|]; [reflexivity|].
    by destruct w as [? [??] ? ? ?].
  - by destruct (find _ (environments (Dbh w))) as [e|].
Qed.

Lemma update_rows_names (n : Node) (id eid : Z) (ns : list node_row) :
  row_name <$> update_rows n id eid ns = row_name <$> ns.
Proof.
  unfold update_rows. rewrite <- list_fmap_compose. apply list_fmap_ext.
  intros i r _. cbn. by destruct (Z.eqb (row_id r) id).
Qed.

Lemma update_rows_ids (n : Node) (id eid : Z) (ns : list node_row) :
  row_id <$> update_rows n id eid ns = row_id <$> ns.
Proof.
  unfold update_rows. rewrite <- list_fmap_compose. apply list_fmap_ext.
  intros i r _. cbn. by destruct (Z.eqb (row_id r) id).
Qed.

Lemma stored_iff_name (ns : list node_row) (name : string) :
  (∃ r, r ∈ ns ∧ row_name r = name) ↔ name ∈ row_name <$> ns.
Proof.
  rewrite list_elem_of_fmap.
  split; [intros (r & Hr & <-)|intros (r & -> & Hr)]; eauto.
Qed.

Lemma find_row_name_Some (ns : list node_row) (name : string) (r : node_row) :
  find (λ r, String.eqb (row_name r) name) ns = Some r →
  r ∈ ns ∧ row_name r = name.
Proof.
  intros Hfind. split; [by eapply find_elem_of|].
  apply find_some in Hfind as [_ Heq]. by apply String.eqb_eq.
Qed.

Lemma find_row_name_not_in (ns : list node_row) (name : string) :
  find (λ r, String.eqb (row_name r) name) ns = None →
  name ∉ row_name <$> ns.
Proof.
  intros Hfind Hin. apply stored_iff_name in Hin as (r & Hr & Hname).
  apply list_elem_of_In in Hr.
  pose proof (find_none _ _ Hfind r Hr) as Hneq. cbn in Hneq.
  apply String.eqb_neq in Hneq. done.
Qed.

(** X10.  What [Save] leaves behind, in either backend.  When it returns
    an error nothing has changed.  When it returns nil a node is stored
    under the node's name, the names under which other nodes are stored
    are the same as before, the node has been handed to the indexer last,
    and neither the heap nor the environments have changed. *)
Theorem Save_outcome (w w' : World) (p : loc) (n : Node) (err : option error) :
  heap w !! p = Some n →
  Save w p = Ret (w', err) →
  match err with
  | Some _ => w' = w
  | None =>
      node_stored w' (Name n)
      ∧ (∀ name, name ≠ Name n → node_stored w' name ↔ node_stored w name)
      ∧ indexed w' = indexed w ++ [("node", Name n)]
      ∧ heap w' = heap w
      ∧ environments (Dbh w') = environments (Dbh w)
  end.
Proof.
  intros Hp. destruct (UseMySQL w) eqn:Hsql.
  - rewrite (Save_relational_eq w p n Hsql Hp). unfold node_stored.
    destruct (find _ (nodes (Dbh w))) as [r0|] eqn:Hrow;
      destruct (find _ (environments (Dbh w))) as [e|] eqn:Henv;
      intros [= <- <-]; cbn; rewrite ?Hsql; [| |split|done].
    + apply find_row_name_Some in Hrow as [Hr0 Hname].
      setoid_rewrite stored_iff_name. rewrite update_rows_names.
      repeat split; try done. rewrite <- Hname. apply list_elem_of_fmap. eauto.
    + apply find_row_name_Some in Hrow as [Hr0 Hname]. by eauto 10.
    + eexists. split; [apply elem_of_app; right; by left|done].
    + split; [|done]. intros name Hne. setoid_rewrite stored_iff_name.
      rewrite fmap_app, elem_of_app. cbn. rewrite list_elem_of_singleton.
      split; [intros [?|?]; [done|congruence]|by left].
  - rewrite (Save_in_memory_eq w p n Hsql Hp). intros [= <- <-].
    unfold node_stored. cbn. rewrite Hsql, lookup_insert_eq.
    split; [by eexists|]. split; [|done].
    intros name Hne. rewrite lookup_insert_ne; [done|congruence].
Qed.

Lemma next_id_above (ns : list node_row) (r : node_row) :
  r ∈ ns → (row_id r < Sql.next_id ns)%Z.
Proof.
  unfold Sql.next_id. induction 1 as [r ns|r r' ns _ IH]; simpl; lia.
Qed.

Lemma next_id_fresh (ns : list node_row) : Sql.next_id ns ∉ row_id <$> ns.
Proof.
  intros Hin. apply list_elem_of_fmap in Hin as (r & Heq & Hr).
  apply next_id_above in Hr. lia.
Qed.

Lemma Save_deref (w w' : World) (p : loc) (err : option error) :
  Save w p = Ret (w', err) → is_Some (heap w !! p).
Proof. unfold Save, deref. by destruct (heap w !! p). Qed.

Lemma Delete_deref (w w' : World) (p : loc) (err : option error) :
  Delete w p = Ret (w', err) → is_Some (heap w !! p).
Proof. unfold Delete, deref. by destruct (heap w !! p). Qed.

(** X11.  The keys of the [nodes] table survive [Save] and [Delete]: if no
    two rows share a name and no two rows share an identifier before the
    call, the same holds after it, whatever the call returns. *)
Theorem unique_rows_kept (w w' : World) (p : loc) (err : option error) :
  unique_rows (Dbh w) →
  Save w p = Ret (w', err) ∨ Delete w p = Ret (w', err) →
  unique_rows (Dbh w').
Proof.
  intros [Hnames Hids] [HSave|HDelete].
  - destruct (Save_deref _ _ _ _ HSave) as [n Hp].
    destruct (UseMySQL w) eqn:Hsql.
    + rewrite (Save_relational_eq w p n Hsql Hp) in HSave. unfold unique_rows.
      destruct (find _ (nodes (Dbh w))) as [r0|] eqn:Hrow;
        destruct (find _ (environments (Dbh w))) as [e|];
        injection HSave as <- <-; cbn; try done.
      * by rewrite update_rows_names, update_rows_ids.
      * rewrite !fmap_app. cbn. split; apply NoDup_app; (split; [done|]).
        -- split; [|apply NoDup_singleton]. intros name Hin Heq.
           apply list_elem_of_singleton in Heq as ->.
           by apply find_row_name_not_in in Hrow.
        -- split; [|apply NoDup_singleton]. intros id Hin Heq.
           apply list_elem_of_singleton in Heq as ->.
           by apply next_id_fresh in Hin.
    + rewrite (Save_in_memory_eq w p n Hsql Hp) in HSave.
      by injection HSave as <- <-.
  - destruct (Delete_deref _ _ _ _ HDelete) as [n Hp].
    rewrite (Delete_eq w p n Hp) in HDelete. injection HDelete as <- <-.
    destruct (UseMySQL w); [|done]. unfold unique_rows. cbn.
    split; (eapply sublist_NoDup; [eassumption|]);
      apply fmap_sublist, (sublist_filter _ (nodes (Dbh w))).
Qed.

Lemma find_fmap_same {A} (P : A → bool) (f : A → A) (l : list A) :
  (∀ x, P (f x) = P x) → find P (f <$> l) = f <$> find P l.
Proof.
  intros HP. induction l as [|x l IH]; [done|]. cbn. rewrite HP.
  by destruct (P x).
Qed.

Lemma find_app_None {A} (P : A → bool) (l : list A) (x : A) :
  find P l = None → P x = true → find P (l ++ [x]) = Some x.
Proof.
  intros Hl Hx. induction l as [|y l IH]; cbn in *; [by rewrite Hx|].
  destruct (P y); [done|]. by apply IH.
Qed.

Lemma update_rows_twice (n : Node) (id eid : Z) (ns : list node_row) :
  update_rows n id eid (update_rows n id eid ns) = update_rows n id eid ns.
Proof.
  unfold update_rows. rewrite <- list_fmap_compose. apply list_fmap_ext.
  intros i r _. cbn. destruct (Z.eqb (row_id r) id) eqn:E; cbn; by rewrite E.
Qed.

Lemma update_rows_other (n : Node) (id eid : Z) (ns : list node_row) :
  id ∉ row_id <$> ns → update_rows n id eid ns = ns.
Proof.
  intros Hid. unfold update_rows. rewrite <- (list_fmap_id ns) at 2.
  apply list_fmap_ext. intros i r Hr. cbn.
  destruct (Z.eqb (row_id r) id) eqn:E; [|done].
  apply Z.eqb_eq in E. destruct Hid. apply list_elem_of_fmap. exists r.
  split; [done|]. by eapply list_elem_of_lookup_2.
Qed.

(** X12.  Saving twice writes the same columns twice.  A second [Save] of
    the same node returns what the first returned and leaves the rows of
    the model (key, name, environment key and the five blob columns), the
    data store and the heap as the first left them: after an INSERT the
    second call is an UPDATE of the row just inserted, with the same
    values.  The indexer is handed the node again.  The [updated_at]
    column, which the UPDATE sets to the server's clock, is not a column
    of the model and is outside this statement. *)
Theorem Save_twice (w w1 : World) (p : loc) (n : Node) (err : option error) :
  heap w !! p = Some n →
  Save w p = Ret (w1, err) →
  ∃ w2,
    Save w1 p = Ret (w2, err)
    ∧ Dbh w2 = Dbh w1
    ∧ dsc w2 = dsc w1
    ∧ heap w2 = heap w1.
Proof.
  intros Hp. destruct (UseMySQL w) eqn:Hsql.
  - rewrite (Save_relational_eq w p n Hsql Hp).
    destruct (find _ (nodes (Dbh w))) as [r0|] eqn:Hrow;
      destruct (find _ (environments (Dbh w))) as [e|] eqn:Henv;
      intros [= <- <-].
    + eexists. rewrite (Save_relational_eq _ p n) by done. cbn [Dbh IndexObj set_indexed
        set_Dbh nodes environments].
      rewrite Henv. unfold update_rows at 1.
      rewrite find_fmap_same, Hrow
        by (intros r; cbn; by destruct (Z.eqb (row_id r) (row_id r0))).
      cbn [fmap option_fmap option_map]. rewrite Z.eqb_refl. cbn [row_id write_row].
      split; [reflexivity|]. cbn. by rewrite update_rows_twice.
    + eexists. rewrite (Save_relational_eq _ p n) by done. cbn [Dbh IndexObj set_indexed].
      rewrite Hrow, Henv. done.
    + eexists. rewrite (Save_relational_eq _ p n) by done. cbn [Dbh IndexObj set_indexed
        set_Dbh nodes environments].
      rewrite Henv, (find_app_None _ _ _ Hrow) by (cbn; apply String.eqb_refl).
      cbn [row_id write_row]. split; [reflexivity|]. cbn.
      unfold update_rows at 1. rewrite fmap_app. cbn. rewrite Z.eqb_refl.
      fold (update_rows n (Sql.next_id (nodes (Dbh w))) (env_id e) (nodes (Dbh w))).
      by rewrite update_rows_other by apply next_id_fresh.
    + exists w. by rewrite (Save_relational_eq w p n Hsql Hp), Hrow, Henv.
  - rewrite (Save_in_memory_eq w p n Hsql Hp). intros [= <- <-].
    eexists. rewrite (Save_in_memory_eq _ p n) by done. split; [reflexivity|].
    cbn. by rewrite insert_insert_eq.
Qed.

(** X13.  Saving a node under a name that was free and deleting it again
    gives the stores back: the database and the data store are what they
    were before the [Save], and the index has lost nothing but the entries
    of that name. *)
Theorem Save_then_Delete (w w1 : World) (p : loc) (n : Node) :
  heap w !! p = Some n →
  ¬ node_stored w (Name n) →
  Save w p = Ret (w1, None) →
  ∃ w2,
    Delete w1 p = Ret (w2, None)
    ∧ Dbh w2 = Dbh w
    ∧ dsc w2 = dsc w
    ∧ (∀ doc, doc ∈ indexed w2 ↔ doc ≠ ("node", Name n) ∧ doc ∈ indexed w).
Proof.
  intros Hp Hno. unfold node_stored in Hno.
  assert (∀ l : list (string * string), ∀ doc,
            doc ∈ filter (λ d, d ≠ ("node", Name n)) (l ++ [("node", Name n)])
            ↔ doc ≠ ("node", Name n) ∧ doc ∈ l) as Hidx.
  { intros l doc. rewrite list_elem_of_filter, elem_of_app, list_elem_of_singleton.
    split; [intros [? [?|?]]; done|intros [? ?]; by auto]. }
  destruct (UseMySQL w) eqn:Hsql.
  - rewrite (Save_relational_eq w p n Hsql Hp).
    rewrite (find_row_name_None _ _ Hno).
    destruct (find _ (environments (Dbh w))) as [e|]; [|done].
    intros [= <-]. eexists. rewrite (Delete_eq _ p n) by done.
    split; [reflexivity|]. cbn. rewrite Hsql. cbn.
    split; [|split; [done|apply Hidx]].
    rewrite filter_app, (filter_all _ (nodes (Dbh w)))
      by (intros r Hr Hname; apply Hno; eauto).
    rewrite filter_cons_False by (cbn; intros Hne; by apply Hne).
    rewrite filter_nil, app_nil_r. by destruct (Dbh w).
  - rewrite (Save_in_memory_eq w p n Hsql Hp). intros [= <-].
    eexists. rewrite (Delete_eq _ p n) by done. split; [reflexivity|].
    cbn. rewrite Hsql. cbn. split; [done|]. split; [|apply Hidx].
    apply delete_insert_id. by apply eq_None_not_Some.
Qed.

End save_more.

(** ** Saving into a missing environment, then fetching *)

Section stale_facts.
Context `{!Validators}.

(** In the relational backend what [Get] hands back is a function of the
    tables. *)
Lemma fetched_Get_relational (w : World) (name : string) :
  UseMySQL w = true →
  fetched (Get w name)
  = match fillNodeFromSQL true zero_Node (Sql.QueryRow (Dbh w) name) with
    | Ret (n', None) => Some (Some n', None)
    | Ret (_, Some e) =>
        Some (None,
              Some (if is_ErrNoRows e
                    then ErrorString ("node '" +:+ name +:+ "' not found")
                    else e))
    | Panic _ => None
    end.
Proof.
  intros Hsql. unfold Get. rewrite Hsql.
  set (p := fresh (dom (heap w))).
  pose proof (deref_alloc w zero_Node) as Hderef.
  change (alloc w zero_Node) with (p, (alloc w zero_Node).2) in Hderef |- *.
  cbn [fst snd] in Hderef. cbv iota. cbn [Sql.Prepare]. rewrite Hderef.
  cbn [mbind outcome_bind].
  change (Dbh (alloc w zero_Node).2) with (Dbh w).
  change (UseMySQL (alloc w zero_Node).2) with (UseMySQL w). rewrite Hsql.
  destruct (fillNodeFromSQL true zero_Node (Sql.QueryRow (Dbh w) name))
    as [[n' [e|]]|msg]; cbn [mbind outcome_bind fetched]; [|  |done].
  - by destruct (is_ErrNoRows e).
  - cbn. by rewrite lookup_insert_eq.
Qed.

(** C1.  The round trip through the relational backend breaks on the
    update path of [Save].  For a node that has a row and whose
    [chef_environment] names no stored environment, [Save] returns nil
    and leaves the tables as they were, so a fetch of the node after the
    save hands back what a fetch before the save hands back: the run list
    and the attribute trees of the old row, not the ones saved. *)
Theorem Save_then_Get_stale (w : World) (p : loc) (n : Node) :
  UseMySQL w = true →
  heap w !! p = Some n →
  is_Some (Sql.select_id (Dbh w) "nodes" (Name n)) →
  Sql.select_id (Dbh w) "environments" (ChefEnvironment n) = None →
  ∃ w1,
    Save w p = Ret (w1, None)
    ∧ Dbh w1 = Dbh w
    ∧ fetched (Get w1 (Name n)) = fetched (Get w (Name n)).
Proof.
  intros Hsql Hp [id Hrow] Henv. exists (IndexObj w n).
  rewrite select_id_nodes in Hrow. rewrite select_id_environments in Henv.
  split.
  - rewrite (Save_relational_eq w p n Hsql Hp).
    destruct (find _ (nodes (Dbh w))) as [r0|]; [|done].
    by destruct (find _ (environments (Dbh w))).
  - split; [done|]. by rewrite !fetched_Get_relational.
Qed.

End stale_facts.

(** ** The further properties on sample data *)

Section more_samples.
Import Sample Example Reached.

Lemma New_fresh_skeleton_witness :
  ∃ p,
    heap mem_empty !! p = None
    ∧ New mem_empty "web01"
      = (set_heap mem_empty (<[p := skeleton "web01"]> (heap mem_empty)),
         (Some p, None)).
Proof.
  apply (New_fresh_skeleton mem_empty "web01"); [|reflexivity].
  by intros [? ?].
Defined.

Lemma NewFromJson_persists_nothing_witness :
  ∃ w' json_node' p,
    NewFromJson mem_empty ["name"] name_only_input
    = Ret (w', json_node', (Some p, None))
    ∧ dsc w' = ∅
    ∧ heap w' !! p = Some (skeleton "web01").
Proof.
  destruct (NewFromJson_persists_nothing mem_empty ["name"] name_only_input)
    as (w' & json_node' & r & Hnew & (_ & _ & Hdsc & _) & _ & Hr).
  assert (NewFromJson mem_empty ["name"] name_only_input
          = Ret (mkWorld false empty_database ∅ {[ 1%positive := skeleton "web01" ]} [],
                 run_list_output_of_name, (Some 1%positive, None))) as Hrun
    by (by vm_compute).
  rewrite Hrun in Hnew. injection Hnew as <- <- <-.
  eexists _, _, _. split; [exact Hrun|]. by split.
Defined.

Lemma UpdateFromJson_keeps_identity_witness :
  Name (set_RunList web01 ["recipe[nginx]"]) = "web01"
  ∧ (JsonClass web01 = "Chef::Node" →
     JsonClass (set_RunList web01 ["recipe[nginx]"]) = "Chef::Node")
  ∧ (ChefType web01 = "node" →
     ChefType (set_RunList web01 ["recipe[nginx]"]) = "node").
Proof.
  apply (UpdateFromJson_keeps_identity ["name"; "run_list"] web01
           (set_RunList web01 ["recipe[nginx]"]) run_list_input run_list_output None).
  by vm_compute.
Defined.

Lemma UpdateFromJson_accepts_witness :
  ∃ json_node',
    UpdateFromJson ["chef_environment"; "name"; "json_class"] web01_moved tags_input
    = Ret (updated_node web01_moved tags_input, json_node', None).
Proof.
  apply (UpdateFromJson_accepts ["chef_environment"; "name"; "json_class"]
           web01_moved tags_input); try reflexivity.
  - split; [compute_done|by vm_compute].
  - intros k Hk. apply elem_of_dom in Hk.
    assert (dom tags_input
            = list_to_set ["name"; "json_class"; "chef_environment"]) as Hdom
      by (by vm_compute).
    rewrite Hdom in Hk. apply elem_of_list_to_set in Hk.
    repeat (apply elem_of_cons in Hk as [->|Hk]); try compute_done.
    by apply elem_of_nil in Hk.
  - intros a Ha. repeat (apply elem_of_cons in Ha as [->|Ha]); try reflexivity.
    by apply elem_of_nil in Ha.
Defined.

Lemma Get_relational_witness :
  ∃ w' q,
    Get (sql_web01 web01) "web01" = Ret (w', (Some q, None))
    ∧ heap (sql_web01 web01) !! q = None
    ∧ heap w' !! 1%positive = Some web01.
Proof.
  destruct (Get_relational (sql_web01 web01) "web01" eq_refl)
    as (w' & r & HGet & _ & Hold & Hr).
  assert (∃ q, r = (Some q, None)) as [q ->].
  { assert (Get (sql_web01 web01) "web01"
            = Ret (mkWorld true sql_database ∅
                     {[ 1%positive := web01; 2%positive := web01 ]} [],
                   (Some 2%positive, None))) as Hrun by (by vm_compute).
    rewrite Hrun in HGet. injection HGet as <- <-. by eexists. }
  destruct Hr as [Hfresh _]. exists w', q. split; [exact HGet|].
  split; [exact Hfresh|]. by apply Hold.
Defined.

Lemma in_memory_store_aliases_witness :
  ∃ w1,
    Save mem_web01 1%positive = Ret (w1, None)
    ∧ Get w1 "web01" = Ret (w1, (Some 1%positive, None)).
Proof.
  destruct (in_memory_store_aliases mem_web01 1%positive web01 ["name"]
              name_only_input eq_refl eq_refl) as (w1 & HSave & HGet & _).
  by exists w1.
Defined.

Lemma Delete_removes_witness :
  ∃ w',
    Delete mem_web01 1%positive = Ret (w', None)
    ∧ ¬ node_stored w' "web01"
    ∧ heap w' = heap mem_web01.
Proof.
  destruct (Delete_removes mem_web01 1%positive web01 eq_refl)
    as (w' & HDelete & Hgone & _ & _ & Hheap & _).
  by exists w'.
Defined.

Lemma Delete_absent_witness :
  Delete mem_nameless 1%positive = Ret (mem_nameless, None).
Proof.
  apply (Delete_absent mem_nameless 1%positive nameless eq_refl).
  - by intros [? ?].
  - by intros ?%elem_of_nil.
Defined.

Lemma GetList_stored_witness :
  ∃ l,
    GetList (sql_web01 web01) = Ret l
    ∧ l = ["web01"]
    ∧ ∀ name, name ∈ l ↔ node_stored (sql_web01 web01) name.
Proof.
  destruct (GetList_stored (sql_web01 web01)) as (l & HGetList & Hrows & Hmem).
  exists l. split; [exact HGetList|]. split; [by apply Hrows|exact Hmem].
Defined.

Lemma Save_outcome_witness :
  node_stored mem_nameless_saved ""
  ∧ indexed mem_nameless_saved = [("node", "")].
Proof.
  destruct (Save_outcome mem_nameless mem_nameless_saved 1%positive nameless None
              eq_refl eq_refl) as (Hstored & _ & Hidx & _).
  by split.
Defined.

Lemma unique_rows_kept_witness :
  unique_rows (Dbh sql_db01_saved)
  ∧ unique_rows (Dbh sql_web01_nginx_saved)
  ∧ unique_rows (Dbh sql_db01_deleted).
Proof.
  assert (unique_rows sql_database) as Hone by (split; compute_done).
  assert (unique_rows (Dbh sql_db01_saved)) as Htwo.
  { apply (unique_rows_kept (sql_web01 db01) sql_db01_saved 1%positive None);
      [exact Hone|]. left. by vm_compute. }
  split; [exact Htwo|]. split.
  - apply (unique_rows_kept (sql_web01 web01_nginx) sql_web01_nginx_saved
             1%positive None); [exact Hone|]. left. by vm_compute.
  - apply (unique_rows_kept sql_db01_saved sql_db01_deleted 1%positive None);
      [exact Htwo|]. right. by vm_compute.
Defined.

Lemma Save_twice_witness :
  Save (sql_web01 db01) 1%positive = Ret (sql_db01_saved, None)
  ∧ ∃ w2,
      Save sql_db01_saved 1%positive = Ret (w2, None)
      ∧ Dbh w2 = Dbh sql_db01_saved
      ∧ indexed w2 = [("node", "db01"); ("node", "db01")].
Proof.
  assert (Save (sql_web01 db01) 1%positive = Ret (sql_db01_saved, None)) as Hfirst
    by (by vm_compute).
  split; [exact Hfirst|].
  destruct (Save_twice (sql_web01 db01) sql_db01_saved 1%positive db01 None
              eq_refl Hfirst) as (w2 & HSave & HDbh & _).
  exists w2. split; [exact HSave|]. split; [exact HDbh|].
  assert (Save sql_db01_saved 1%positive = Ret (IndexObj sql_db01_saved db01, None))
    as Hrun by (by vm_compute).
  rewrite Hrun in HSave. by injection HSave as <-.
Defined.

Lemma Save_then_Get_stale_witness :
  ∃ w1,
    Save (sql_web01 web01_moved) 1%positive = Ret (w1, None)
    ∧ fetched (Get w1 "web01") = Some (Some web01, None)
    ∧ RunList web01_moved = ["recipe[nginx]"]
    ∧ RunList web01 = []
    ∧ ChefEnvironment web01_moved = "production"
    ∧ ChefEnvironment web01 = "_default".
Proof.
  destruct (Save_then_Get_stale (sql_web01 web01_moved) 1%positive web01_moved)
    as (w1 & HSave & _ & Hfetch).
  - reflexivity.
  - reflexivity.
  - by exists 1%Z.
  - reflexivity.
  - exists w1. split; [exact HSave|]. split; [|done].
    change (Name web01_moved) with "web01" in Hfetch.
    rewrite Hfetch. by vm_compute.
Defined.

Lemma Save_then_Delete_witness :
  ∃ w2,
    Delete mem_nameless_saved 1%positive = Ret (w2, None)
    ∧ dsc w2 = ∅.
Proof.
  destruct (Save_then_Delete mem_nameless mem_nameless_saved 1%positive nameless
              eq_refl) as (w2 & HDelete & _ & Hdsc & _).
  - by intros [? ?].
  - reflexivity.
  - by exists w2.
Defined.

End more_samples.
